(** * ChebConv2: the Chebyshev convolution layer of
    [spektral/layers/convolutional/cheb_conv2.py]

    The layer is a Keras layer: its methods read and write the attributes of
    [self] and call tensor primitives of the framework.  The development
    has these parts:

    - [Tensor]: framework tensors, a shape together with the entries, and
      the primitives the layer calls ([KB.dot], [KB.bias_add],
      [ops.modal_dot], the broadcasting arithmetic of [+], [-], [*]).
      Entries are integers that stand for the floating-point numbers of
      the framework: the properties of [build] and [call] are about
      shapes, the order of the steps and which entries are combined by
      which operation, and none of them rests on a law of exact arithmetic,
      such as [z * 0 = 0] or [(y + b) - y = b], that floating-point numbers
      do not obey.  The concrete runs use small integers, which
      floating-point arithmetic adds and multiplies exactly.
    - [Py]: a state and error monad for the method bodies.
    - [ChebConv2]: [__init__], [build], [call] and [config], run on a world
      that holds the layer object and a trace of what leaves the layer; and
      the Chebyshev expansion as the specification words it.
    - [Sample]: one weight subsystem, one reparameterization and a few
      inputs to run the layer on.
    - [Preprocess]: the static method [preprocess] on dense real matrices.
    - [More]: notions that only the further properties use.
    - the properties of the layer, in the order: expansion, order 1, calls
      of the reparameterization, state, mask, shapes, bias, configuration
      errors, preprocessing.
    - further properties: [build] step by step, the edge cases of [call],
      what [call] emits and reads, the modes without a batch dimension, an
      operator that does not fit, [config]. *)

From Stdlib Require Import Reals Lra.
From Stdlib Require Import String ZArith List Bool Lia FinFun.
Import ListNotations.
Open Scope Z_scope.

(* ================================================================== *)
(** * Tensors *)

Module Tensor.

(** A tensor is its static shape and a total entry function; only the
    entries at indices inside the shape are meaningful. *)
Record tensor : Type := mkTensor {
  shape : list nat;
  get : list nat -> Z
}.

Definition rank (t : tensor) : nat := length (shape t).

(** Finite sums [f 0 + ... + f (n-1)]. *)
Fixpoint bigsum (n : nat) (f : nat -> Z) : Z :=
  match n with
  | O => 0
  | S n' => bigsum n' f + f n'
  end.

(** ** Elementwise operations *)

Definition tmap (f : Z -> Z) (t : tensor) : tensor :=
  mkTensor (shape t) (fun idx => f (get t idx)).

(** [c * t] for a Python number [c]. *)
Definition scale (c : Z) (t : tensor) : tensor := tmap (Z.mul c) t.

(** ** Broadcasting

    Shapes are aligned on their trailing dimensions; two aligned dimensions
    are compatible when they are equal or one of them is 1. *)
Fixpoint bshape_rev (r1 r2 : list nat) : option (list nat) :=
  match r1, r2 with
  | [], _ => Some r2
  | _, [] => Some r1
  | d1 :: r1', d2 :: r2' =>
      match bshape_rev r1' r2' with
      | Some r =>
          if (d1 =? d2)%nat then Some (d1 :: r)
          else if (d1 =? 1)%nat then Some (d2 :: r)
          else if (d2 =? 1)%nat then Some (d1 :: r)
          else None
      | None => None
      end
  end.

Definition bshape (s1 s2 : list nat) : option (list nat) :=
  option_map (@rev nat) (bshape_rev (rev s1) (rev s2)).

(** Index clamping along the dimensions of size 1. *)
Fixpoint clamp (s idx : list nat) : list nat :=
  match s, idx with
  | d :: s', i :: idx' => (if (d =? 1)%nat then O else i) :: clamp s' idx'
  | _, _ => []
  end.

(** [bidx s idx]: the index into an operand of shape [s] that the entry
    [idx] of the broadcast result reads. *)
Definition bidx (s idx : list nat) : list nat :=
  clamp s (skipn (length idx - length s) idx).

Definition bop (f : Z -> Z -> Z) (t1 t2 : tensor) : option tensor :=
  match bshape (shape t1) (shape t2) with
  | Some s =>
      Some (mkTensor s (fun idx =>
              f (get t1 (bidx (shape t1) idx)) (get t2 (bidx (shape t2) idx))))
  | None => None
  end.

Definition add : tensor -> tensor -> option tensor := bop Z.add.
Definition sub : tensor -> tensor -> option tensor := bop Z.sub.
Definition mul : tensor -> tensor -> option tensor := bop Z.mul.

(** ** Products *)

(** [insert_at n v l] puts [v] in front of position [n] of [l]. *)
Definition insert_at (n : nat) (v : nat) (l : list nat) : list nat :=
  firstn n l ++ v :: skipn n l.

(** [KB.dot x y] of the Keras backend: the last dimension of [x] is
    contracted with the second to last dimension of [y]; both operands have
    rank at least 2.  The result has the shape
    [x.shape[:-1] + y.shape[:-2] + y.shape[-1:]]. *)
Definition KB_dot (x y : tensor) : option tensor :=
  let rx := rank x in
  let ry := rank y in
  if ((2 <=? rx)%nat && (2 <=? ry)%nat)%bool then
    let F := nth (rx - 1) (shape x) O in
    if (F =? nth (ry - 2) (shape y) O)%nat then
      Some (mkTensor
              (firstn (rx - 1) (shape x)
                 ++ firstn (ry - 2) (shape y) ++ skipn (ry - 1) (shape y))
              (fun idx =>
                 let i := firstn (rx - 1) idx in
                 let j := skipn (rx - 1) idx in
                 bigsum F (fun f =>
                   get x (i ++ [f]) * get y (insert_at (ry - 2) f j))))
    else None
  else None.

(** [KB.bias_add x b] with the default channels-last data format and a
    bias vector: [b] has rank 1 and its length is the last dimension of [x].
    [build] only ever creates a rank 1 bias. *)
Definition KB_bias_add (x b : tensor) : option tensor :=
  match shape b with
  | [C] =>
      if ((2 <=? rank x)%nat && (nth (rank x - 1) (shape x) O =? C)%nat)%bool
      then Some (mkTensor (shape x)
                   (fun idx => get x idx + get b [nth (rank x - 1) idx O]))
      else None
  | _ => None
  end.

(** Matrix product of the last two dimensions, the leading dimensions
    [lead] being shared; [pa] and [pb] say which operand carries them. *)
Definition matmul_lead (lead : list nat) (pa pb : bool) (n m p : nat)
    (a b : tensor) : tensor :=
  let l := length lead in
  mkTensor (lead ++ [n; p])
    (fun idx =>
       let h := firstn l idx in
       let i := nth l idx O in
       let j := nth (S l) idx O in
       bigsum m (fun k =>
         get a ((if pa then h else []) ++ [i; k])
         * get b ((if pb then h else []) ++ [k; j]))).

(** Modelled from the spec: [ops.modal_dot] of [spektral.layers.ops], which
    is not part of the sources.  It is the matrix product of the last two
    dimensions that respects an optional leading batch dimension: both
    operands have rank 2 or 3, the inner dimensions agree, and a batch
    dimension carried by both operands is the same on both. *)
Definition modal_dot (a b : tensor) : option tensor :=
  match shape a, shape b with
  | [n; m], [m'; p] =>
      if (m =? m')%nat then Some (matmul_lead [] false false n m p a b)
      else None
  | [B; n; m], [B'; m'; p] =>
      if ((B =? B')%nat && (m =? m')%nat)%bool
      then Some (matmul_lead [B] true true n m p a b) else None
  | [n; m], [B; m'; p] =>
      if (m =? m')%nat then Some (matmul_lead [B] false true n m p a b)
      else None
  | [B; n; m], [m'; p] =>
      if (m =? m')%nat then Some (matmul_lead [B] true false n m p a b)
      else None
  | _, _ => None
  end.

(** ** Literals *)

Definition of_vector (v : list Z) : tensor :=
  mkTensor [length v]
    (fun idx => nth (nth 0 idx O) v 0).

Definition of_batch (B rows cols : nat) (t : list (list (list Z))) : tensor :=
  mkTensor [B; rows; cols]
    (fun idx =>
       nth (nth 2 idx O) (nth (nth 1 idx O) (nth (nth 0 idx O) t []) []) 0).

Definition full (s : list nat) (c : Z) : tensor :=
  mkTensor s (fun _ => c).

End Tensor.

(* ================================================================== *)
(** * A state and error monad for method bodies *)

Module Py.

Section Monad.
Variable St : Type.

(** A computation runs on a state and either returns a value or raises;
    the state reached is kept in both cases. *)
Definition M (A : Type) : Type := St -> option A * St.

Definition ret {A} (a : A) : M A := fun s => (Some a, s).

Definition raise {A} : M A := fun s => (None, s).

Definition bind {A B} (m : M A) (k : A -> M B) : M B :=
  fun s =>
    match m s with
    | (Some a, s') => k a s'
    | (None, s') => (None, s')
    end.

(** A primitive that may raise and does not touch the state. *)
Definition lift {A} (o : option A) : M A :=
  match o with
  | Some a => ret a
  | None => raise
  end.

Definition gets {A} (f : St -> A) : M A := fun s => (Some (f s), s).

Definition modify (f : St -> St) : M unit := fun s => (Some tt, f s).

(** [for k in ks: locals = body k locals]. *)
Fixpoint for_each {L} (ks : list Z) (body : Z -> L -> M L) (l : L) : M L :=
  match ks with
  | [] => ret l
  | k :: ks' => bind (body k l) (for_each ks' body)
  end.
End Monad.

Arguments ret {St A} a.
Arguments raise {St A}.
Arguments bind {St A B} m k.
Arguments lift {St A} o.
Arguments gets {St A} f.
Arguments modify {St} f.
Arguments for_each {St L} ks body l.

(** Python's [range(lo, hi)]. *)
Definition range (lo hi : Z) : list Z :=
  map (fun i => lo + Z.of_nat i) (seq 0 (Z.to_nat (hi - lo))).

End Py.

Declare Scope py_scope.
Delimit Scope py_scope with py.
Notation "x <- m ;; k" := (Py.bind m (fun x => k))
  (at level 61, m at next level, right associativity) : py_scope.
Notation "' p <- m ;; k" := (Py.bind m (fun p => k))
  (at level 61, p pattern, m at next level, right associativity) : py_scope.
Notation "m ;;; k" := (Py.bind m (fun _ => k))
  (at level 61, right associativity) : py_scope.

(* ================================================================== *)
(** * The layer *)

Module ChebConv2.
Import Tensor Py.
Open Scope py_scope.

(** The attributes set by the base class [Conv] from the keyword arguments
    of [__init__]. *)
Record ConvAttrs : Type := mkConvAttrs {
  activation : Z -> Z;
  use_bias : bool;
  kernel_initializer : string;
  bias_initializer : string;
  kernel_regularizer : option string;
  bias_regularizer : option string;
  activity_regularizer : option string;
  kernel_constraint : option string;
  bias_constraint : option string
}.

(** The layer object.  [kernel] and [bias] do not exist before [build]. *)
Record Layer : Type := mkLayer {
  conv : ConvAttrs;
  channels : Z;
  K : Z;
  kernel : option tensor;
  bias : option tensor;
  built : bool
}.

(** What leaves the layer: weights requested from the framework, lines
    printed, and calls of the reparameterization. *)
Inductive event : Type :=
| EvAddWeight (shp : list Z) (name : string)
| EvPrintShape (shp : list nat)
| EvPrint (line : string)
| EvReparam (K : Z) (W : tensor) (order : Z).

Record World : Type := mkWorld {
  self : Layer;
  trace : list event
}.

Definition attr {A} (f : Layer -> A) : M World A :=
  gets (fun w => f (self w)).

(** Reading an attribute that was never assigned raises. *)
Definition attr_opt {A} (f : Layer -> option A) : M World A :=
  o <- attr f ;; lift o.

Definition emit (e : event) : M World unit :=
  modify (fun w => mkWorld (self w) (trace w ++ [e])).

Definition set_kernel (t : tensor) : M World unit :=
  modify (fun w =>
    let l := self w in
    mkWorld (mkLayer (conv l) (channels l) (K l) (Some t) (bias l) (built l))
            (trace w)).

Definition set_bias (t : tensor) : M World unit :=
  modify (fun w =>
    let l := self w in
    mkWorld (mkLayer (conv l) (channels l) (K l) (kernel l) (Some t) (built l))
            (trace w)).

Definition set_built (b : bool) : M World unit :=
  modify (fun w =>
    let l := self w in
    mkWorld (mkLayer (conv l) (channels l) (K l) (kernel l) (bias l) b)
            (trace w)).

(** Modelled from the spec: the constructor of the base class [Conv], which
    is not part of the sources.  It stores the configuration; the activation
    is resolved once, [None] standing for the identity, and is applied
    elementwise.  A fresh layer is not built. *)
Definition Conv_init (act : option (Z -> Z)) (use_bias : bool)
    (kernel_initializer bias_initializer : string)
    (kernel_regularizer bias_regularizer activity_regularizer
       kernel_constraint bias_constraint : option string) : ConvAttrs :=
  mkConvAttrs (match act with Some f => f | None => fun z => z end)
    use_bias kernel_initializer bias_initializer
    kernel_regularizer bias_regularizer activity_regularizer
    kernel_constraint bias_constraint.

(** [ChebConv2.__init__]. *)
Definition __init__ (channels : Z) (K : Z) (act : option (Z -> Z))
    (use_bias : bool) (kernel_initializer bias_initializer : string)
    (kernel_regularizer bias_regularizer activity_regularizer
       kernel_constraint bias_constraint : option string) : Layer :=
  mkLayer
    (Conv_init act use_bias kernel_initializer bias_initializer
       kernel_regularizer bias_regularizer activity_regularizer
       kernel_constraint bias_constraint)
    channels K None None false.

(** The defaults of the keyword arguments. *)
Definition default_init (channels : Z) : Layer :=
  __init__ channels 1 None true "glorot_uniform" "zeros"
    None None None None None.

(** [x[-1]] on a shape. *)
Definition last_dim (s : list nat) : option nat :=
  match s with
  | [] => None
  | _ => Some (last s O)
  end.

(** A computation that assigns to no attribute of [self]. *)
Definition reads_only {A} (m : M World A) : Prop :=
  forall w, self (snd (m w)) = self w.

(** A world whose layer has order [Kz] and kernel [W]. *)
Definition has_weights (Kz : Z) (W : tensor) (w : World) : Prop :=
  K (self w) = Kz /\ kernel (self w) = Some W.

(** [logged w es]: the world [w] after the events [es]. *)
Definition logged (w : World) (es : list event) : World :=
  mkWorld (self w) (trace w ++ es).

(** The layer was built for inputs with [F] features per node: the kernel
    has shape [(K, F, channels)] and, when the bias is enabled, the bias has
    shape [(channels,)]. *)
Definition built_for (l : Layer) (F : nat) : Prop :=
  (exists W, kernel l = Some W
             /\ shape W = [Z.to_nat (K l); F; Z.to_nat (channels l)])
  /\ (use_bias (conv l) = true ->
      exists b, bias l = Some b /\ shape b = [Z.to_nat (channels l)]).

(** The masks [call] accepts for a batch of [B] graphs of [N] nodes: none,
    or a list whose first element has shape [(B, N, 1)]. *)
Definition mask_for (mask : option (list (option tensor))) (B N : nat)
    : Prop :=
  match mask with
  | None => True
  | Some (Some m :: _) => shape m = [B; N; 1%nat]
  | Some _ => False
  end.

Section Methods.
(** [add_weight] of the framework: shape, initializer, name, regularizer
    and constraint. *)
Variable add_weight :
  list Z -> string -> string -> option string -> option string ->
  option tensor.

(** [chebyshev_reparam_weights] of [spektral.utils]: [K], the whole
    kernel and the order. *)
Variable chebyshev_reparam_weights : Z -> tensor -> Z -> option tensor.

Definition self_add_weight (shp : list Z) (initializer name : string)
    (regularizer constraint : option string) : M World tensor :=
  emit (EvAddWeight shp name) ;;;
  lift (add_weight shp initializer name regularizer constraint).

Definition reparam (K : Z) (W : tensor) (order : Z) : M World tensor :=
  emit (EvReparam K W order) ;;;
  lift (chebyshev_reparam_weights K W order).

(** [ChebConv2.build]. *)
Definition build (input_shape : list (list nat)) : M World unit :=
  (if (2 <=? length input_shape)%nat then ret tt else raise) ;;;
  input_dim <- lift (last_dim (nth 0 input_shape [])) ;;
  K_ <- attr K ;;
  channels_ <- attr channels ;;
  init_ <- attr (fun l => kernel_initializer (conv l)) ;;
  reg_ <- attr (fun l => kernel_regularizer (conv l)) ;;
  con_ <- attr (fun l => kernel_constraint (conv l)) ;;
  kernel_ <- self_add_weight [K_; Z.of_nat input_dim; channels_]
               init_ "kernel" reg_ con_ ;;
  set_kernel kernel_ ;;;
  kernel_ <- attr_opt kernel ;;
  emit (EvPrintShape (shape kernel_)) ;;;
  use_bias_ <- attr (fun l => use_bias (conv l)) ;;
  (if use_bias_ then
     channels_ <- attr channels ;;
     init_ <- attr (fun l => bias_initializer (conv l)) ;;
     reg_ <- attr (fun l => bias_regularizer (conv l)) ;;
     con_ <- attr (fun l => bias_constraint (conv l)) ;;
     bias_ <- self_add_weight [channels_] init_ "bias" reg_ con_ ;;
     set_bias bias_
   else ret tt) ;;;
  emit (EvPrint "HALLO CHEBCONV 2") ;;;
  set_built true.

(** Why [build] raises: fewer than two input shapes, an input shape
    without dimensions, or [add_weight] raising for the kernel or for the
    bias. *)
Definition build_raises (input_shape : list (list nat)) (l : Layer)
    : Prop :=
  (length input_shape < 2)%nat
  \/ last_dim (nth 0 input_shape []) = None
  \/ (exists d, last_dim (nth 0 input_shape []) = Some d
                /\ add_weight [K l; Z.of_nat d; channels l]
                     (kernel_initializer (conv l)) "kernel"
                     (kernel_regularizer (conv l))
                     (kernel_constraint (conv l)) = None)
  \/ (use_bias (conv l) = true
      /\ add_weight [channels l] (bias_initializer (conv l)) "bias"
           (bias_regularizer (conv l)) (bias_constraint (conv l)) = None).

(** The local variables of [call] that the loop reads and writes.  [T_1]
    is only bound when the branch [K > 1] was taken. *)
Definition locals : Type := (tensor * option tensor * tensor)%type.

(** The body of [for k in range(2, self.K)]. *)
Definition loop_body (a : tensor) (k : Z) (l : locals) : M World locals :=
  let '(T_0, T_1, output) := l in
  T_1v <- lift T_1 ;;
  m <- lift (modal_dot a T_1v) ;;
  T_2 <- lift (sub (scale 2 m) T_0) ;;
  K_ <- attr K ;;
  kernel_ <- attr_opt kernel ;;
  w <- reparam K_ kernel_ k ;;
  d <- lift (KB_dot T_2 w) ;;
  output <- lift (add output d) ;;
  ret (T_1v, Some T_2, output).

(** [ChebConv2.call] up to the end of the loop: the value of [output]
    before the bias, the mask and the activation. *)
Definition call_expansion (inputs : tensor * tensor) : M World tensor :=
  let '(x, a) := inputs in
  let T_0 := x in
  K_ <- attr K ;;
  kernel_ <- attr_opt kernel ;;
  w <- reparam K_ kernel_ 0 ;;
  output <- lift (KB_dot T_0 w) ;;
  K_ <- attr K ;;
  '(T_1, output) <-
    (if 1 <? K_ then
       T_1 <- lift (modal_dot a x) ;;
       K_ <- attr K ;;
       kernel_ <- attr_opt kernel ;;
       w <- reparam K_ kernel_ 1 ;;
       d <- lift (KB_dot T_1 w) ;;
       output <- lift (add output d) ;;
       ret (Some T_1, output)
     else ret (None, output)) ;;
  K_ <- attr K ;;
  '(_, _, output) <- for_each (range 2 K_) (loop_body a) (T_0, T_1, output) ;;
  ret output.

(** The bias step of [call]. *)
Definition call_bias (output : tensor) : M World tensor :=
  use_bias_ <- attr (fun l => use_bias (conv l)) ;;
  if use_bias_ then
    bias_ <- attr_opt bias ;;
    lift (KB_bias_add output bias_)
  else ret output.

(** The mask step of [call]: [mask] is [None] or the list of the masks of
    the inputs, each of which may be [None]. *)
Definition call_mask (mask : option (list (option tensor)))
    (output : tensor) : M World tensor :=
  match mask with
  | Some ms =>
      m0 <- lift (nth_error ms 0) ;;
      m <- lift m0 ;;
      lift (mul output m)
  | None => ret output
  end.

(** [ChebConv2.call]. *)
Definition call (inputs : tensor * tensor)
    (mask : option (list (option tensor))) : M World tensor :=
  output <- call_expansion inputs ;;
  output <- call_bias output ;;
  output <- call_mask mask output ;;
  act <- attr (fun l => activation (conv l)) ;;
  ret (tmap act output).

(** [ChebConv2.config]. *)
Definition config : M World (list (string * Z)) :=
  channels_ <- attr channels ;;
  K_ <- attr K ;;
  ret [("channels"%string, channels_); ("K"%string, K_)].

(** One product [T . reparam(K, W, k)] added to [output]. *)
Definition accumulate (Kz : Z) (W : tensor) (output T : tensor) (k : Z)
    : option tensor :=
  match chebyshev_reparam_weights Kz W k with
  | Some wk =>
      match KB_dot T wk with
      | Some d => add output d
      | None => None
      end
  | None => None
  end.

(** The contract of the reparameterization: for a kernel of shape
    [(K, F_in, F_out)] and an order [0 <= k < K] it returns a matrix of
    shape [(F_in, F_out)]. *)
Definition reparam_contract : Prop :=
  forall (Kz : Z) (W : tensor) (k : Z) (F C : nat),
    shape W = [Z.to_nat Kz; F; C] ->
    0 <= k < Kz ->
    exists wk, chebyshev_reparam_weights Kz W k = Some wk
               /\ shape wk = [F; C].

(** The contract of [add_weight]: a tensor of the requested shape, for
    every shape without a negative dimension. *)
Definition add_weight_contract : Prop :=
  forall (shp : list Z) (initializer name : string)
         (regularizer constraint : option string),
    Forall (fun d => 0 <= d) shp ->
    exists t, add_weight shp initializer name regularizer constraint
                = Some t
              /\ shape t = map Z.to_nat shp.

(** ** The expansion as the specification words it

    The Chebyshev terms [T_0 = x], [T_1 = a x] and
    [T_k = 2 (a T_(k-1)) - T_(k-2)], without any rolling of state. *)
Fixpoint cheb_T (a x : tensor) (k : nat) : option tensor :=
  match k with
  | O => Some x
  | S k1 =>
      match k1 with
      | O => modal_dot a x
      | S k2 =>
          match cheb_T a x k1, cheb_T a x k2 with
          | Some t1, Some t0 =>
              match modal_dot a t1 with
              | Some m => sub (scale 2 m) t0
              | None => None
              end
          | _, _ => None
          end
      end
  end.

(** The summand of order [k]: [T_k . reparam(K, W, k)]. *)
Definition cheb_summand (K : Z) (W a x : tensor) (k : nat)
    : option tensor :=
  match cheb_T a x k, chebyshev_reparam_weights K W (Z.of_nat k) with
  | Some t, Some w => KB_dot t w
  | _, _ => None
  end.

(** The sum of the summands of orders [0 .. n], taken in this order. *)
Fixpoint cheb_sum (K : Z) (W a x : tensor) (n : nat) : option tensor :=
  match n with
  | O => cheb_summand K W a x O
  | S n' =>
      match cheb_sum K W a x n', cheb_summand K W a x n with
      | Some acc, Some d => add acc d
      | _, _ => None
      end
  end.

(** The value of the expansion as a function of the order and of the
    kernel alone: for [K >= 1] the sum of the orders [0 .. K-1], and for
    [K < 1] the single product of order 0, which [call] computes before
    it looks at [K]. *)
Definition expansion_value (Kz : Z) (oW : option tensor) (a x : tensor)
    : option tensor :=
  match oW with
  | Some W =>
      if 1 <=? Kz then cheb_sum Kz W a x (Z.to_nat Kz - 1)
      else match chebyshev_reparam_weights Kz W 0 with
           | Some wk => KB_dot x wk
           | None => None
           end
  | None => None
  end.

(** The last three steps of [call] as functions of the layer's
    attributes: bias, mask, activation. *)
Definition bias_step (l : Layer) (y : tensor) : option tensor :=
  if use_bias (conv l) then
    match bias l with
    | Some b => KB_bias_add y b
    | None => None
    end
  else Some y.

Definition mask_step (mask : option (list (option tensor))) (y : tensor)
    : option tensor :=
  match mask with
  | Some (Some m :: _) => mul y m
  | Some _ => None
  | None => Some y
  end.

Definition finish (l : Layer) (mask : option (list (option tensor)))
    (y : tensor) : option tensor :=
  match bias_step l y with
  | Some yb =>
      match mask_step mask yb with
      | Some ym => Some (tmap (activation (conv l)) ym)
      | None => None
      end
  | None => None
  end.

(** A plain per-node linear layer with weight [reparam(1, W, 0)],
    followed by bias, mask and activation: no operator takes part. *)
Definition per_node_linear (l : Layer)
    (mask : option (list (option tensor))) (x : tensor) : option tensor :=
  match kernel l with
  | Some W =>
      match chebyshev_reparam_weights 1 W 0 with
      | Some w =>
          match KB_dot x w with
          | Some y => finish l mask y
          | None => None
          end
      | None => None
      end
  | None => None
  end.

End Methods.

End ChebConv2.

(* ================================================================== *)
(** * Concrete collaborators and inputs

    The weight subsystem and the reparameterization formula live outside
    the sources; the layer is parameterised by them.  To run the layer we
    fix one instance of each. *)

Module Sample.
Import Tensor Py ChebConv2.

(** A weight subsystem: dimensions must be non-negative; the initializer
    ["zeros"] fills with 0 and every other one with 1. *)
Definition sample_add_weight (shp : list Z) (initializer name : string)
    (regularizer constraint : option string) : option tensor :=
  if forallb (Z.leb 0) shp
  then Some (full (map Z.to_nat shp)
               (if String.eqb initializer "zeros" then 0 else 1))
  else None.

(** A reparameterization that mixes all the slices of the kernel: the
    matrix of order [k] is the sum over [j] of [(j + k + 1) * W[j]]. *)
Definition sample_reparam (Kz : Z) (W : tensor) (order : Z) : option tensor :=
  match shape W with
  | [Kn; fin; fout] =>
      if ((0 <=? order) && (order <? Kz))%bool
      then Some (mkTensor [fin; fout]
                   (fun idx =>
                      bigsum Kn (fun j =>
                        (Z.of_nat j + order + 1) * get W (j :: idx))))
      else None
  | _ => None
  end.

(** The path graph on three nodes and two features per node, batch of 1. *)
Definition path3 : tensor :=
  of_batch 1 3 3 [[[0; 1; 0]; [1; 0; 1]; [0; 1; 0]]].

Definition features : tensor :=
  of_batch 1 3 2 [[[1; 2]; [3; 4]; [5; 6]]].

(** A layer with [channels = 2] and the given order, activation and bias
    switch, built on the shapes of [features] and [path3]. *)
Definition sample_layer (Kz : Z) (act : option (Z -> Z)) (ub : bool) : Layer :=
  __init__ 2 Kz act ub "glorot_uniform" "zeros" None None None None None.

Definition built_world (l : Layer) : World :=
  snd (build sample_add_weight [[1; 3; 2]; [1; 3; 3]]%nat (mkWorld l [])).

Definition relu (z : Z) : Z := Z.max 0 z.

(** A mask that keeps the two end nodes of [path3] and pads the middle
    one. *)
Definition mask_middle : tensor := of_batch 1 3 1 [[[1]; [0]; [1]]].

(** A trained layer of order 1 with one channel: the kernel is 1 and the
    bias, when enabled, is 2. *)
Definition trained_layer (act : option (Z -> Z)) (ub : bool) : Layer :=
  mkLayer
    (Conv_init act ub "glorot_uniform" "zeros" None None None None None)
    1 1 (Some (full [1; 1; 1]%nat 1))
    (if ub then Some (of_vector [2]) else None) true.

(** One graph with one node whose single feature is -5, and its
    operator. *)
Definition cold_node : tensor := full [1; 1; 1]%nat (-5).
Definition one_node : tensor := full [1; 1; 1]%nat 1.


(** One graph of two nodes with two features each, its operator, and a
    mask of shape [(B, N) = (1, 2)], without a trailing dimension, that
    pads node 0 and keeps node 1. *)
Definition two_nodes : tensor := of_batch 1 2 2 [[[1; 2]; [3; 4]]].
Definition pair : tensor := of_batch 1 2 2 [[[0; 1]; [1; 0]]].
Definition flat_mask : tensor :=
  mkTensor [1; 2]%nat (fun idx => nth (nth 1 idx O) [0; 1] 0).

End Sample.

(* ================================================================== *)
(** * Preprocessing of the adjacency matrix *)

Module Preprocess.
Local Open Scope R_scope.

(** [preprocess] works on dense numpy matrices, before any tensor exists:
    a number of rows, a number of columns and real entries. *)
Record ndarray : Type := mkArray {
  nrows : nat;
  ncols : nat;
  entry : nat -> nat -> R
}.

(** [f 0 + ... + f (n-1)]. *)
Fixpoint rsum (n : nat) (f : nat -> R) : R :=
  match n with
  | O => 0
  | S n' => rsum n' f + f n'
  end.

Definition delta (i j : nat) : R := if (i =? j)%nat then 1 else 0.

Definition eye (n : nat) : ndarray := mkArray n n delta.

Definition diag (n : nat) (d : nat -> R) : ndarray :=
  mkArray n n (fun i j => if (i =? j)%nat then d i else 0).

Definition dot (a b : ndarray) : ndarray :=
  mkArray (nrows a) (ncols b)
    (fun i j => rsum (ncols a) (fun k => entry a i k * entry b k j)).

Definition minus (a b : ndarray) : ndarray :=
  mkArray (nrows a) (ncols a) (fun i j => entry a i j - entry b i j).

Definition smul (c : R) (a : ndarray) : ndarray :=
  mkArray (nrows a) (ncols a) (fun i j => c * entry a i j).

(** The degree of node [i]: the sum of row [i]. *)
Definition degree (a : ndarray) (i : nat) : R :=
  rsum (ncols a) (fun j => entry a i j).

(** Modelled from the spec: [normalized_laplacian] of [spektral.utils],
    which is not part of the sources.  It computes
    [L = I - D^(-1/2) A D^(-1/2)], where [D] is the diagonal degree matrix
    of [A]. *)
Definition normalized_laplacian (a : ndarray) : ndarray :=
  let n := ncols a in
  let d := diag n (fun i => / sqrt (degree a i)) in
  minus (eye n) (dot (dot d a) d).

Section Rescale.
(** The estimate of the largest eigenvalue that the rescaling uses. *)
Variable lmax : ndarray -> R.

(** Modelled from the spec: [rescale_laplacian] of [spektral.utils],
    which is not part of the sources.  It maps [L] to
    [(2 / lambda_max) L - I]. *)
Definition rescale_laplacian (L : ndarray) : ndarray :=
  minus (smul (2 / lmax L) L) (eye (ncols L)).

(** [ChebConv2.preprocess], a static method: it takes no layer. *)
Definition preprocess (a : ndarray) : ndarray :=
  let a := normalized_laplacian a in
  let a := rescale_laplacian a in
  a.
End Rescale.

(** The adjacency matrix of the path graph on three nodes. *)
Definition path3 : ndarray :=
  mkArray 3 3
    (fun i j =>
       match i, j with
       | 0%nat, 1%nat | 1%nat, 0%nat | 1%nat, 2%nat | 2%nat, 1%nat => 1
       | _, _ => 0
       end).

End Preprocess.

(* ================================================================== *)
(** * Further notions used by the properties *)

Module More.
Import Tensor Py ChebConv2.

(** The events [build] emits when it completes on a layer [l] for the
    feature dimension [d], the kernel handed out being [kt]. *)
Definition build_events (l : Layer) (d : nat) (kt : tensor) : list event :=
  [EvAddWeight [K l; Z.of_nat d; channels l] "kernel";
   EvPrintShape (shape kt)]
  ++ (if use_bias (conv l) then [EvAddWeight [channels l] "bias"] else [])
  ++ [EvPrint "HALLO CHEBCONV 2"].

(** [e] is a call of the reparameterization with the order and the kernel
    of the layer [l]. *)
Definition reparam_of (l : Layer) (e : event) : Prop :=
  match e with
  | EvReparam Kz W _ => K l = Kz /\ kernel l = Some W
  | _ => False
  end.

(** A computation run on [w] only emits calls of the reparameterization
    with the order and the kernel of the layer, and changes nothing else. *)
Definition tidy {A} (m : M World A) (w : World) : Prop :=
  exists es, snd (m w) = logged w es /\ Forall (reparam_of (self w)) es.

(** A weight subsystem that raises when asked for the bias. *)
Definition add_weight_without_bias (shp : list Z) (initializer name : string)
    (regularizer constraint : option string) : option tensor :=
  if String.eqb name "bias" then None
  else Sample.sample_add_weight shp initializer name regularizer constraint.

End More.

(* ================================================================== *)
(** * Properties of the layer *)

Import Tensor Py ChebConv2.
Open Scope py_scope.

(** ** Running the monad *)

Lemma lift_run {A} (o : option A) (w : World) : lift o w = (o, w).
Proof. destruct o; reflexivity. Qed.

Lemma bind_run {A B} (m : M World A) (k : A -> M World B) (w : World) :
  bind m k w =
  match m w with
  | (Some a, w') => k a w'
  | (None, w') => (None, w')
  end.
Proof. reflexivity. Qed.

Lemma attr_run {A} (f : Layer -> A) (w : World) :
  attr f w = (Some (f (self w)), w).
Proof. reflexivity. Qed.

Lemma attr_opt_run {A} (f : Layer -> option A) (w : World) :
  attr_opt f w = (f (self w), w).
Proof. unfold attr_opt. rewrite bind_run, attr_run. apply lift_run. Qed.

Lemma emit_run (e : event) (w : World) :
  emit e w = (Some tt, mkWorld (self w) (trace w ++ [e])).
Proof. reflexivity. Qed.

Section Running.
Variable rp : Z -> tensor -> Z -> option tensor.

Lemma reparam_run (Kz : Z) (W : tensor) (k : Z) (w : World) :
  reparam rp Kz W k w
  = (rp Kz W k, mkWorld (self w) (trace w ++ [EvReparam Kz W k])).
Proof.
  unfold reparam. rewrite bind_run, emit_run. apply lift_run.
Qed.

Lemma call_bias_run (y : tensor) (w : World) :
  call_bias y w = (bias_step (self w) y, w).
Proof.
  unfold call_bias, bias_step. rewrite bind_run, attr_run.
  destruct (use_bias (conv (self w))); [|reflexivity].
  rewrite bind_run, attr_opt_run.
  destruct (bias (self w)); [apply lift_run | reflexivity].
Qed.

Lemma call_mask_run (mask : option (list (option tensor))) (y : tensor)
    (w : World) :
  call_mask mask y w = (mask_step mask y, w).
Proof.
  unfold call_mask, mask_step. destruct mask as [ms|]; [|reflexivity].
  rewrite bind_run, lift_run.
  destruct ms as [|[m|] ms']; simpl; try reflexivity.
  apply lift_run.
Qed.

(** [call] is the expansion followed by the three closing steps. *)
Lemma call_run (inputs : tensor * tensor)
    (mask : option (list (option tensor))) (w : World) :
  call rp inputs mask w =
  match call_expansion rp inputs w with
  | (Some y, w') => (finish (self w') mask y, w')
  | (None, w') => (None, w')
  end.
Proof.
  unfold call. rewrite bind_run.
  destruct (call_expansion rp inputs w) as [[y|] w']; [|reflexivity].
  rewrite bind_run, call_bias_run. unfold finish.
  destruct (bias_step (self w') y) as [yb|]; [|reflexivity].
  rewrite bind_run, call_mask_run.
  destruct (mask_step mask yb) as [ym|]; reflexivity.
Qed.
End Running.

(** ** Python's range *)

Lemma range_nil (lo hi : Z) : hi <= lo -> range lo hi = [].
Proof.
  intros H. unfold range. replace (Z.to_nat (hi - lo)) with O by lia.
  reflexivity.
Qed.

Lemma range_cons (lo hi : Z) : lo < hi -> range lo hi = lo :: range (lo + 1) hi.
Proof.
  intros H. unfold range.
  replace (Z.to_nat (hi - lo)) with (S (Z.to_nat (hi - (lo + 1)))) by lia.
  rewrite <- cons_seq, <- seq_shift, map_cons, map_map.
  f_equal; [lia|]. apply map_ext. intros i. lia.
Qed.

(** ** Frame: what a method leaves alone *)

Section Frame.
Variable rp : Z -> tensor -> Z -> option tensor.

Lemma reads_only_ret {A} (a : A) : reads_only (ret a).
Proof. intros w. reflexivity. Qed.

Lemma reads_only_lift {A} (o : option A) : reads_only (lift o).
Proof. intros w. now rewrite lift_run. Qed.

Lemma reads_only_attr {A} (f : Layer -> A) : reads_only (attr f).
Proof. intros w. reflexivity. Qed.

Lemma reads_only_emit (e : event) : reads_only (emit e).
Proof. intros w. reflexivity. Qed.

Lemma reads_only_bind {A B} (m : M World A) (k : A -> M World B) :
  reads_only m -> (forall a, reads_only (k a)) -> reads_only (bind m k).
Proof.
  intros Hm Hk w. rewrite bind_run. specialize (Hm w).
  destruct (m w) as [[a|] w']; simpl in *; [|exact Hm].
  now rewrite Hk.
Qed.

Lemma reads_only_attr_opt {A} (f : Layer -> option A) :
  reads_only (attr_opt f).
Proof. intros w. now rewrite attr_opt_run. Qed.

Lemma reads_only_for_each {L} (body : Z -> L -> M World L) :
  (forall k l, reads_only (body k l)) ->
  forall ks l, reads_only (for_each ks body l).
Proof.
  intros Hb ks. induction ks as [|k ks IH]; intros l; simpl.
  - apply reads_only_ret.
  - apply reads_only_bind; [apply Hb | exact IH].
Qed.

Lemma reads_only_reparam (Kz : Z) (W : tensor) (k : Z) :
  reads_only (reparam rp Kz W k).
Proof. intros w. now rewrite reparam_run. Qed.

Create HintDb frame.
Hint Resolve reads_only_ret reads_only_lift reads_only_attr
  reads_only_emit reads_only_attr_opt reads_only_reparam : frame.

Ltac frame :=
  repeat first
    [ apply reads_only_bind; [|intros ?]
    | apply reads_only_for_each; intros ? ?
    | match goal with |- reads_only (let '(_, _) := ?p in _) => destruct p end
    | match goal with |- reads_only (if ?b then _ else _) => destruct b end
    | solve [auto with frame] ].

Lemma reads_only_loop_body (a : tensor) (k : Z) (l : locals) :
  reads_only (loop_body rp a k l).
Proof. destruct l as [[T_0 T_1] output]. unfold loop_body. frame. Qed.

Lemma reads_only_call_expansion (inputs : tensor * tensor) :
  reads_only (call_expansion rp inputs).
Proof.
  destruct inputs as [x a]. unfold call_expansion. frame.
  apply reads_only_loop_body.
Qed.

Lemma reads_only_call (inputs : tensor * tensor)
    (mask : option (list (option tensor))) :
  reads_only (call rp inputs mask).
Proof.
  intros w. rewrite call_run.
  pose proof (reads_only_call_expansion inputs w) as H.
  destruct (call_expansion rp inputs w) as [[y|] w']; exact H.
Qed.
End Frame.

(** ** The expansion *)

Section Expansion.
Variable rp : Z -> tensor -> Z -> option tensor.
Variables (Kz : Z) (W : tensor).

Lemma has_weights_logged (w : World) (es : list event) :
  has_weights Kz W w -> has_weights Kz W (logged w es).
Proof. intros H. exact H. Qed.

Lemma loop_body_run (a : tensor) (k : Z) (T_0 T_1 output : tensor)
    (w : World) :
  has_weights Kz W w ->
  loop_body rp a k (T_0, Some T_1, output) w =
  match modal_dot a T_1 with
  | Some m =>
      match sub (scale 2 m) T_0 with
      | Some T_2 =>
          (option_map (fun o => (T_1, Some T_2, o)) (accumulate rp Kz W output T_2 k),
           logged w [EvReparam Kz W k])
      | None => (None, w)
      end
  | None => (None, w)
  end.
Proof.
  intros [HK HW]. unfold loop_body, accumulate.
  rewrite bind_run, lift_run, bind_run, lift_run.
  destruct (modal_dot a T_1) as [m|]; [|reflexivity].
  rewrite bind_run, lift_run.
  destruct (sub (scale 2 m) T_0) as [T_2|]; [|reflexivity].
  rewrite bind_run, attr_run, bind_run, attr_opt_run, HK, HW.
  rewrite bind_run, reparam_run. fold (logged w [EvReparam Kz W k]).
  destruct (rp Kz W k) as [wk|]; [|reflexivity].
  rewrite bind_run, lift_run.
  destruct (KB_dot T_2 wk) as [d|]; [|reflexivity].
  rewrite bind_run, lift_run.
  destruct (add output d); reflexivity.
Qed.

(** *** The specification's sum, one order at a time *)

Lemma cheb_T_SS (a x : tensor) (k : nat) :
  cheb_T a x (S (S k)) =
  match cheb_T a x (S k), cheb_T a x k with
  | Some t1, Some t0 =>
      match modal_dot a t1 with
      | Some m => sub (scale 2 m) t0
      | None => None
      end
  | _, _ => None
  end.
Proof. reflexivity. Qed.

Lemma cheb_sum_S (a x : tensor) (n : nat) :
  cheb_sum rp Kz W a x (S n) =
  match cheb_sum rp Kz W a x n, cheb_T a x (S n) with
  | Some acc, Some t => accumulate rp Kz W acc t (Z.of_nat (S n))
  | _, _ => None
  end.
Proof.
  cbn [cheb_sum]. unfold cheb_summand, accumulate.
  destruct (cheb_sum rp Kz W a x n) as [acc|]; [|reflexivity].
  destruct (cheb_T a x (S n)) as [t|]; [|reflexivity].
  destruct (rp Kz W (Z.of_nat (S n))) as [wk|]; [|reflexivity].
  destruct (KB_dot t wk); reflexivity.
Qed.

Lemma cheb_sum_None (a x : tensor) (n j : nat) :
  cheb_sum rp Kz W a x n = None -> cheb_sum rp Kz W a x (n + j) = None.
Proof.
  intros H. induction j as [|j IH].
  - now rewrite Nat.add_0_r.
  - rewrite Nat.add_succ_r, cheb_sum_S, IH. reflexivity.
Qed.

(** The loop started on [T_n], [T_(n+1)] and the partial sum of orders
    [0 .. n+1] runs the orders [n+2 .. n+1+m]: it raises exactly when the
    sum of orders [0 .. n+1+m] is undefined, and otherwise ends on
    [T_(n+m)], [T_(n+1+m)] and that sum. *)
Lemma loop_rolls (a x : tensor) (m : nat) :
  forall (n : nat) (T_0 T_1 output : tensor) (w : World),
    has_weights Kz W w ->
    cheb_T a x n = Some T_0 ->
    cheb_T a x (S n) = Some T_1 ->
    cheb_sum rp Kz W a x (S n) = Some output ->
    let r := for_each
               (range (Z.of_nat (S (S n))) (Z.of_nat (S (S n)) + Z.of_nat m))
               (loop_body rp a) (T_0, Some T_1, output) w in
    (fst r = None /\ cheb_sum rp Kz W a x (S n + m) = None)
    \/ (exists T_0' T_1' output',
          fst r = Some (T_0', Some T_1', output')
          /\ cheb_T a x (n + m) = Some T_0'
          /\ cheb_T a x (S n + m) = Some T_1'
          /\ cheb_sum rp Kz W a x (S n + m) = Some output').
Proof.
  induction m as [|m IH]; intros n T_0 T_1 output w Hw H0 H1 Hs r.
  - right. exists T_0, T_1, output. subst r.
    rewrite range_nil by lia. rewrite !Nat.add_0_r. auto.
  - subst r. rewrite range_cons by lia. cbn [for_each].
    rewrite bind_run, loop_body_run by exact Hw.
    assert (HT : cheb_T a x (S (S n)) =
                 match modal_dot a T_1 with
                 | Some mm => sub (scale 2 mm) T_0
                 | None => None
                 end) by (now rewrite cheb_T_SS, H1, H0).
    assert (HS : cheb_sum rp Kz W a x (S (S n)) =
                 match cheb_T a x (S (S n)) with
                 | Some t => accumulate rp Kz W output t (Z.of_nat (S (S n)))
                 | None => None
                 end) by (now rewrite cheb_sum_S, Hs).
    replace (S n + S m)%nat with (S (S n) + m)%nat by lia.
    replace (n + S m)%nat with (S n + m)%nat by lia.
    destruct (modal_dot a T_1) as [mm|].
    2:{ left. split; [reflexivity|]. apply cheb_sum_None.
        now rewrite HS, HT. }
    destruct (sub (scale 2 mm) T_0) as [T_2|].
    2:{ left. split; [reflexivity|]. apply cheb_sum_None.
        now rewrite HS, HT. }
    rewrite HT in HS.
    destruct (accumulate rp Kz W output T_2 (Z.of_nat (S (S n)))) as [o|]; cbn [option_map].
    2:{ left. split; [reflexivity|]. now apply cheb_sum_None. }
    replace (Z.of_nat (S (S n)) + 1) with (Z.of_nat (S (S (S n)))) by lia.
    replace (Z.of_nat (S (S n)) + Z.of_nat (S m))
      with (Z.of_nat (S (S (S n))) + Z.of_nat m) by lia.
    apply (IH (S n) T_1 T_2 o); auto.
Qed.

Lemma logged_nil (w : World) : logged w [] = w.
Proof. destruct w. unfold logged. cbn. now rewrite app_nil_r. Qed.

Lemma logged_logged (w : World) (es es' : list event) :
  logged (logged w es) es' = logged w (es ++ es').
Proof. unfold logged. cbn. now rewrite app_assoc. Qed.

(** A loop that completes has called the reparameterization once per
    order it ran, in order, and has done nothing else to the world. *)
Lemma loop_trace (a : tensor) (ks : list Z) :
  forall (l l' : locals) (w w' : World),
    has_weights Kz W w ->
    for_each ks (loop_body rp a) l w = (Some l', w') ->
    w' = logged w (map (EvReparam Kz W) ks).
Proof.
  induction ks as [|k ks IH]; intros l l' w w' Hw H.
  - cbn in H. injection H as _ <-. now rewrite logged_nil.
  - cbn [for_each] in H. rewrite bind_run in H.
    destruct l as [[T_0 [T_1|]] output]; [|discriminate H].
    rewrite loop_body_run in H by exact Hw.
    destruct (modal_dot a T_1) as [m|]; [|discriminate H].
    destruct (sub (scale 2 m) T_0) as [T_2|]; [|discriminate H].
    destruct (accumulate rp Kz W output T_2 k) as [o|]; [|discriminate H].
    cbn [option_map] in H. apply IH in H; [|now apply has_weights_logged].
    now rewrite logged_logged in H.
Qed.

(** The expansion, run from a world with weights. *)
Lemma call_expansion_run (x a : tensor) (w : World) :
  has_weights Kz W w -> 1 <= Kz ->
  let r := call_expansion rp (x, a) w in
  fst r = cheb_sum rp Kz W a x (Z.to_nat Kz - 1)
  /\ (fst r <> None ->
      snd r = logged w (map (EvReparam Kz W) (range 0 Kz))).
Proof.
  intros Hw HK r. subst r. pose proof Hw as [HKz HW].
  unfold call_expansion.
  rewrite bind_run, attr_run, bind_run, attr_opt_run, HKz, HW.
  rewrite bind_run, reparam_run. fold (logged w [EvReparam Kz W 0]).
  set (w0 := logged w [EvReparam Kz W 0]).
  assert (H0 : cheb_sum rp Kz W a x 0 =
               match rp Kz W 0 with
               | Some w => KB_dot x w
               | None => None
               end) by reflexivity.
  replace (Z.to_nat Kz - 1)%nat with (0 + (Z.to_nat Kz - 1))%nat by lia.
  destruct (rp Kz W 0) as [wk|].
  2:{ split; [symmetry; now apply cheb_sum_None | intros C; now elim C]. }
  rewrite bind_run, lift_run.
  destruct (KB_dot x wk) as [out0|].
  2:{ split; [symmetry; now apply cheb_sum_None | intros C; now elim C]. }
  rewrite bind_run, attr_run. change (K (self w0)) with (K (self w)).
  rewrite HKz. rewrite bind_run.
  destruct (Z.ltb_spec 1 Kz) as [Hlt|Hge].
  - (* K > 1 *)
    assert (H1 : cheb_sum rp Kz W a x 1 =
                 match modal_dot a x with
                 | Some t => accumulate rp Kz W out0 t 1
                 | None => None
                 end).
    { rewrite cheb_sum_S, H0. reflexivity. }
    replace (0 + (Z.to_nat Kz - 1))%nat with (1 + (Z.to_nat Kz - 2))%nat
      by lia.
    rewrite bind_run, lift_run.
    destruct (modal_dot a x) as [T_1|] eqn:HT1.
    2:{ split; [symmetry; now apply cheb_sum_None | intros C; now elim C]. }
    rewrite bind_run, attr_run, bind_run, attr_opt_run.
    change (self w0) with (self w). rewrite HKz, HW.
    rewrite bind_run, reparam_run. fold (logged w0 [EvReparam Kz W 1]).
    set (w1 := logged w0 [EvReparam Kz W 1]).
    unfold accumulate in H1.
    destruct (rp Kz W 1) as [wk1|].
    2:{ split; [symmetry; now apply cheb_sum_None | intros C; now elim C]. }
    rewrite bind_run, lift_run.
    destruct (KB_dot T_1 wk1) as [d|].
    2:{ split; [symmetry; now apply cheb_sum_None | intros C; now elim C]. }
    rewrite bind_run, lift_run.
    destruct (add out0 d) as [out1|].
    2:{ split; [symmetry; now apply cheb_sum_None | intros C; now elim C]. }
    cbn [ret]. rewrite bind_run, attr_run.
    change (K (self w1)) with (K (self w)). rewrite HKz, bind_run.
    assert (Hw1 : has_weights Kz W w1) by exact Hw.
    pose proof (loop_rolls a x (Z.to_nat Kz - 2) 0 x T_1 out1 w1 Hw1
                  eq_refl HT1 H1) as L.
    cbn zeta in L.
    replace (Z.of_nat 2 + Z.of_nat (Z.to_nat Kz - 2)) with Kz in L by lia.
    change (Z.of_nat 2) with 2 in L.
    destruct (for_each (range 2 Kz) (loop_body rp a) (x, Some T_1, out1) w1)
      as [[l'|] w'] eqn:Hloop.
    + destruct L as [[C _]|(t0 & t1 & o & E & _ & _ & S)]; [discriminate C|].
      cbn [fst] in E. injection E as ->. cbn [fst snd]. split; [now rewrite S|].
      intros _. apply loop_trace in Hloop; [|exact Hw1]. subst w' w1 w0.
      rewrite !logged_logged. f_equal.
      rewrite (range_cons 0 Kz), (range_cons (0 + 1) Kz) by lia.
      reflexivity.
    + destruct L as [[_ S]|(t0 & t1 & o & E & _)]; [|discriminate E].
      cbn [fst snd]. split; [now rewrite S | intros C; now elim C].
  - (* K = 1 *)
    replace (Z.to_nat Kz - 1)%nat with 0%nat by lia. cbn [ret].
    rewrite bind_run, attr_run. change (K (self w0)) with (K (self w)).
    rewrite HKz, range_nil by lia. rewrite Nat.add_0_r, H0.
    rewrite (range_cons 0 Kz), (range_nil (0 + 1) Kz) by lia.
    split; [reflexivity | intros _; reflexivity].
Qed.
End Expansion.

(** ** The forward pass is the Chebyshev sum *)

(** C1.  For every order [K >= 1], input [x], operator [a] and kernel [W],
    the value of [output] at the end of the loop of [call] (before bias,
    mask and activation) is the sum over [k = 0 .. K-1] of
    [T_k . reparam(K, W, k)], where [T_0 = x], [T_1 = a x] (present only
    when [K > 1]) and [T_k = 2 (a T_(k-1)) - T_(k-2)]; the rolled state of
    the loop computes these terms ([loop_rolls]).  [call] returns that sum
    put through bias, mask and activation. *)
Theorem C1_call_is_chebyshev_sum
    (rp : Z -> tensor -> Z -> option tensor) (x a W : tensor)
    (mask : option (list (option tensor))) (w : World) :
  1 <= K (self w) ->
  kernel (self w) = Some W ->
  fst (call_expansion rp (x, a) w)
    = cheb_sum rp (K (self w)) W a x (Z.to_nat (K (self w)) - 1)
  /\ fst (call rp (x, a) mask w)
     = match cheb_sum rp (K (self w)) W a x (Z.to_nat (K (self w)) - 1) with
       | Some y => finish (self w) mask y
       | None => None
       end.
Proof.
  intros HK HW.
  assert (Hw : has_weights (K (self w)) W w) by (split; [reflexivity|exact HW]).
  destruct (call_expansion_run rp (K (self w)) W x a w Hw HK) as [E _].
  split; [exact E|].
  rewrite call_run. pose proof (reads_only_call_expansion rp (x, a) w) as F.
  destruct (call_expansion rp (x, a) w) as [[y|] w']; cbn [fst snd] in *;
    rewrite <- E; [now rewrite F | reflexivity].
Qed.

Lemma C1_call_is_chebyshev_sum_witness :
  let w := Sample.built_world (Sample.sample_layer 3 None true) in
  1 <= K (self w)
  /\ kernel (self w) = Some (full [3; 2; 2]%nat 1)
  /\ fst (call_expansion Sample.sample_reparam
            (Sample.features, Sample.path3) w)
     = cheb_sum Sample.sample_reparam 3 (full [3; 2; 2]%nat 1)
         Sample.path3 Sample.features 2.
Proof.
  cbv zeta. split; [vm_compute; discriminate|]. split; [reflexivity|].
  apply (C1_call_is_chebyshev_sum Sample.sample_reparam Sample.features
           Sample.path3 (full [3; 2; 2]%nat 1) None
           (Sample.built_world (Sample.sample_layer 3 None true))).
  - vm_compute; discriminate.
  - reflexivity.
Defined.

(** ** Order 1 *)

Section OrderOne.
Variable rp : Z -> tensor -> Z -> option tensor.

(** With [K <= 1] the expansion is a single product and never looks at
    the operator. *)
Lemma call_expansion_low (x a : tensor) (w : World) :
  K (self w) <= 1 ->
  call_expansion rp (x, a) w =
  match kernel (self w) with
  | Some W =>
      (match rp (K (self w)) W 0 with
       | Some wk => KB_dot x wk
       | None => None
       end, logged w [EvReparam (K (self w)) W 0])
  | None => (None, w)
  end.
Proof.
  intros HK. unfold call_expansion.
  rewrite bind_run, attr_run, bind_run, attr_opt_run.
  destruct (kernel (self w)) as [W|]; [|reflexivity].
  rewrite bind_run, reparam_run.
  fold (logged w [EvReparam (K (self w)) W 0]).
  destruct (rp (K (self w)) W 0) as [wk|]; [|reflexivity].
  rewrite bind_run, lift_run.
  destruct (KB_dot x wk) as [y|]; [|reflexivity].
  rewrite bind_run, attr_run. cbn [logged self].
  destruct (Z.ltb_spec 1 (K (self w))) as [H|_]; [lia|].
  rewrite bind_run. cbn [ret]. rewrite bind_run, attr_run.
  change (self (logged w [EvReparam (K (self w)) W 0])) with (self w).
  rewrite range_nil by lia. reflexivity.
Qed.

Lemma call_expansion_K1 (x a : tensor) (w : World) :
  K (self w) = 1 ->
  call_expansion rp (x, a) w =
  match kernel (self w) with
  | Some W =>
      (match rp 1 W 0 with
       | Some wk => KB_dot x wk
       | None => None
       end, logged w [EvReparam 1 W 0])
  | None => (None, w)
  end.
Proof.
  intros HK. rewrite call_expansion_low by lia. now rewrite HK.
Qed.

(** The value of the expansion depends on the layer through its order
    and its kernel only. *)
Lemma call_expansion_value (x a : tensor) (w : World) :
  fst (call_expansion rp (x, a) w)
  = expansion_value rp (K (self w)) (kernel (self w)) a x.
Proof.
  unfold expansion_value.
  destruct (Z.leb_spec 1 (K (self w))) as [H1|H1].
  - destruct (kernel (self w)) as [W|] eqn:EW.
    + apply (call_expansion_run rp (K (self w)) W x a w); [|exact H1].
      split; [reflexivity|exact EW].
    + unfold call_expansion.
      now rewrite bind_run, attr_run, bind_run, attr_opt_run, EW.
  - rewrite call_expansion_low by lia.
    destruct (kernel (self w)); reflexivity.
Qed.
End OrderOne.

(** C2.  For a layer with [K = 1] and every input [x], [call] is a plain
    per-node linear transform of [x] by [reparam(1, W, 0)] followed by bias,
    mask and activation; the operator has no influence: for any two
    operators [a1] and [a2] the two calls return the same value and leave
    the same world. *)
Theorem C2_order_one_ignores_operator
    (rp : Z -> tensor -> Z -> option tensor) (x a1 a2 : tensor)
    (mask : option (list (option tensor))) (w : World) :
  K (self w) = 1 ->
  call rp (x, a1) mask w = call rp (x, a2) mask w
  /\ fst (call rp (x, a1) mask w) = per_node_linear rp (self w) mask x.
Proof.
  intros HK. rewrite !call_run, !call_expansion_K1 by exact HK.
  split; [reflexivity|]. unfold per_node_linear.
  destruct (kernel (self w)) as [W|]; [|reflexivity].
  destruct (rp 1 W 0) as [wk|]; [|reflexivity].
  destruct (KB_dot x wk); reflexivity.
Qed.

Lemma C2_order_one_ignores_operator_witness :
  let w := Sample.built_world (Sample.sample_layer 1 None true) in
  K (self w) = 1
  /\ call Sample.sample_reparam (Sample.features, Sample.path3) None w
     = call Sample.sample_reparam (Sample.features, full [7; 5]%nat 9) None w.
Proof.
  cbv zeta. split; [reflexivity|].
  apply (C2_order_one_ignores_operator Sample.sample_reparam Sample.features
           Sample.path3 (full [7; 5]%nat 9) None
           (Sample.built_world (Sample.sample_layer 1 None true))).
  reflexivity.
Defined.

(** ** Calls of the reparameterization *)

Lemma range_In (lo hi k : Z) : In k (range lo hi) <-> lo <= k < hi.
Proof.
  unfold range. rewrite in_map_iff. split.
  - intros (i & <- & Hi). apply in_seq in Hi. lia.
  - intros H. exists (Z.to_nat (k - lo)). split; [lia|].
    apply in_seq. lia.
Qed.

Lemma range_NoDup (lo hi : Z) : NoDup (range lo hi).
Proof.
  unfold range. apply Injective_map_NoDup; [|apply seq_NoDup].
  intros i j H. lia.
Qed.

(** C8.  Every forward call that completes has invoked the
    reparameterization exactly once for each order [k = 0 .. K-1], in
    increasing order, each time with [K], the whole kernel [W] and the order;
    nothing is kept from one call to the next: a second call invokes it
    again for every order. *)
Theorem C8_reparam_once_per_order_each_call
    (rp : Z -> tensor -> Z -> option tensor) (x a W : tensor)
    (mask : option (list (option tensor))) (w w' : World) (y : tensor) :
  1 <= K (self w) ->
  kernel (self w) = Some W ->
  call rp (x, a) mask w = (Some y, w') ->
  let calls := map (EvReparam (K (self w)) W) (range 0 (K (self w))) in
  trace w' = trace w ++ calls
  /\ NoDup (range 0 (K (self w)))
  /\ (forall k, In k (range 0 (K (self w))) <-> 0 <= k < K (self w))
  /\ (forall x2 a2 mask2 y2 w2,
        call rp (x2, a2) mask2 w' = (Some y2, w2) ->
        trace w2 = trace w' ++ calls).
Proof.
  intros HK HW Hc calls.
  assert (Hw : has_weights (K (self w)) W w) by (split; [reflexivity|exact HW]).
  assert (once : forall x1 a1 mask1 (w1 w1' : World) y1,
             has_weights (K (self w)) W w1 ->
             call rp (x1, a1) mask1 w1 = (Some y1, w1') ->
             w1' = logged w1 calls).
  { intros x1 a1 mask1 w1 w1' y1 Hw1 H. rewrite call_run in H.
    destruct (call_expansion_run rp (K (self w)) W x1 a1 w1 Hw1 HK) as [_ T].
    destruct (call_expansion rp (x1, a1) w1) as [[y0|] w0];
      [|discriminate H].
    cbn [fst snd] in T. injection H as _ <-. apply T. discriminate. }
  pose proof (once _ _ _ _ _ _ Hw Hc) as E.
  split; [now rewrite E|]. split; [apply range_NoDup|].
  split; [intros k; apply range_In|].
  intros x2 a2 mask2 y2 w2 H2.
  assert (Hw' : has_weights (K (self w)) W w') by (now rewrite E).
  now rewrite (once _ _ _ _ _ _ Hw' H2).
Qed.

Lemma C8_reparam_once_per_order_each_call_witness :
  let w := Sample.built_world (Sample.sample_layer 3 None true) in
  let W := full [3; 2; 2]%nat 1 in
  exists y w',
    call Sample.sample_reparam (Sample.features, Sample.path3) None w
      = (Some y, w')
    /\ trace w' = trace w ++ [EvReparam 3 W 0; EvReparam 3 W 1; EvReparam 3 W 2].
Proof.
  cbv zeta.
  destruct (call Sample.sample_reparam (Sample.features, Sample.path3) None
              (Sample.built_world (Sample.sample_layer 3 None true)))
    as [[y|] w'] eqn:E.
  2:{ exfalso.
      assert (H : option_map shape
                    (fst (call Sample.sample_reparam
                            (Sample.features, Sample.path3) None
                            (Sample.built_world
                               (Sample.sample_layer 3 None true))))
                  = Some [1; 3; 2]%nat) by (vm_compute; reflexivity).
      rewrite E in H. discriminate H. }
  exists y, w'. split; [reflexivity|].
  apply (C8_reparam_once_per_order_each_call Sample.sample_reparam
           Sample.features Sample.path3 (full [3; 2; 2]%nat 1) None
           (Sample.built_world (Sample.sample_layer 3 None true)) w' y).
  - vm_compute; discriminate.
  - reflexivity.
  - exact E.
Defined.

(** ** The state of the layer *)

Section Build.
Variable aw :
  list Z -> string -> string -> option string -> option string ->
  option tensor.

(** What [build] does to the layer: when it completes, the kernel (and the
    bias, if enabled) are the tensors handed out by [add_weight] for the
    shapes [(K, input_dim, channels)] and [(channels,)], and [built] is
    set; when it raises, [built] is as before.  The configuration is
    never touched. *)
Lemma build_spec (input_shape : list (list nat)) (w : World) :
  let l := self w in
  let r := build aw input_shape w in
  let l' := self (snd r) in
  conv l' = conv l /\ channels l' = channels l /\ K l' = K l
  /\ match fst r with
     | Some _ =>
         built l' = true
         /\ (2 <= length input_shape)%nat
         /\ exists d,
             last_dim (nth 0 input_shape []) = Some d
             /\ kernel l' = aw [K l; Z.of_nat d; channels l]
                              (kernel_initializer (conv l)) "kernel"
                              (kernel_regularizer (conv l))
                              (kernel_constraint (conv l))
             /\ kernel l' <> None
             /\ if use_bias (conv l)
                then bias l' = aw [channels l] (bias_initializer (conv l))
                                 "bias" (bias_regularizer (conv l))
                                 (bias_constraint (conv l))
                     /\ bias l' <> None
                else bias l' = bias l
     | None => built l' = built l /\ build_raises aw input_shape l
     end.
Proof.
  cbv zeta. destruct (build aw input_shape w) as [u w'] eqn:E.
  cbn [fst snd]. unfold build in E. rewrite bind_run in E.
  assert (stop : forall (w0 : World) (P : Prop),
            conv (self w0) = conv (self w) ->
            channels (self w0) = channels (self w) ->
            K (self w0) = K (self w) ->
            built (self w0) = built (self w) ->
            build_raises aw input_shape (self w) ->
            (@None unit, w0) = (u, w') ->
            conv (self w') = conv (self w)
            /\ channels (self w') = channels (self w)
            /\ K (self w') = K (self w)
            /\ match u with
               | Some _ => P
               | None => built (self w') = built (self w)
                         /\ build_raises aw input_shape (self w)
               end).
  { intros w0 P ? ? ? ? ? H. injection H as <- <-. auto. }
  destruct (Nat.leb_spec 2 (length input_shape)) as [Hlen|Hlen];
    [|apply (stop w); auto; left; exact Hlen].
  cbn [ret] in E. rewrite bind_run, lift_run in E.
  destruct (last_dim (nth 0 input_shape [])) as [d|] eqn:Hd;
    [|apply (stop w); auto; right; left; exact Hd].
  do 5 rewrite bind_run, attr_run in E.
  unfold self_add_weight at 1 in E.
  rewrite bind_run, bind_run, emit_run, lift_run in E. cbn [self] in E.
  destruct (aw [K (self w); Z.of_nat d; channels (self w)]
              (kernel_initializer (conv (self w))) "kernel"
              (kernel_regularizer (conv (self w)))
              (kernel_constraint (conv (self w)))) as [kt|] eqn:Hk.
  2:{ eapply stop; [| | | | |exact E]; try reflexivity.
      right; right; left. exists d. auto. }
  rewrite bind_run in E. cbn [set_kernel modify self trace] in E.
  rewrite bind_run, attr_opt_run in E. cbn [self kernel] in E.
  rewrite bind_run, emit_run in E. cbn [self trace] in E.
  rewrite bind_run, attr_run in E. cbn [self conv] in E.
  rewrite bind_run in E.
  destruct (use_bias (conv (self w))) eqn:Hub.
  - do 4 rewrite bind_run, attr_run in E.
    unfold self_add_weight in E.
    rewrite bind_run, bind_run, emit_run, lift_run in E.
    cbn [self channels conv] in E.
    destruct (aw [channels (self w)] (bias_initializer (conv (self w)))
                "bias" (bias_regularizer (conv (self w)))
                (bias_constraint (conv (self w)))) as [b|] eqn:Hb.
    2:{ eapply stop; [| | | | |exact E]; try reflexivity.
        right; right; right. auto. }
    cbn in E. injection E as <- <-. cbn.
    repeat split; auto. exists d.
    repeat split; auto; discriminate.
  - cbn in E. injection E as <- <-. cbn.
    repeat split; auto. exists d.
    repeat split; auto; discriminate.
Qed.

(** With a weight subsystem that honours every shape without a negative
    dimension, [build] completes on a layer with [K >= 0] and
    [channels >= 0], and the layer it leaves is built for the feature
    dimension of the first input. *)
Lemma build_built_for (input_shape : list (list nat)) (w : World)
    (F : nat) :
  add_weight_contract aw ->
  0 <= K (self w) -> 0 <= channels (self w) ->
  (2 <= length input_shape)%nat ->
  last_dim (nth 0 input_shape []) = Some F ->
  exists w', build aw input_shape w = (Some tt, w')
             /\ built_for (self w') F
             /\ K (self w') = K (self w)
             /\ channels (self w') = channels (self w)
             /\ conv (self w') = conv (self w).
Proof.
  intros Haw HK HC Hlen HF.
  pose proof (build_spec input_shape w) as S. cbv zeta in S.
  destruct (build aw input_shape w) as [[[]|] w'] eqn:E; cbn [fst snd] in S.
  - destruct S as (Ec & Ech & EK & _ & _ & d & Hd & Ek & _ & Eb).
    rewrite HF in Hd. injection Hd as <-.
    exists w'. repeat split; auto.
    + destruct (Haw [K (self w); Z.of_nat F; channels (self w)]
                  (kernel_initializer (conv (self w))) "kernel"%string
                  (kernel_regularizer (conv (self w)))
                  (kernel_constraint (conv (self w))))
        as (t & Et & St); [repeat constructor; lia|].
      exists t. rewrite Ek, Et, St, EK, Ech. cbn.
      now rewrite Nat2Z.id.
    + rewrite Ec. intros Hub. rewrite Hub in Eb. destruct Eb as [Eb _].
      destruct (Haw [channels (self w)]
                  (bias_initializer (conv (self w))) "bias"%string
                  (bias_regularizer (conv (self w)))
                  (bias_constraint (conv (self w))))
        as (t & Et & St); [repeat constructor; lia|].
      exists t. rewrite Eb, Et, St, Ech. auto.
  - exfalso. destruct S as (_ & _ & _ & _ & [H|[H|[(d & Hd & H)|[_ H]]]]).
    + lia.
    + congruence.
    + rewrite HF in Hd. injection Hd as <-.
      destruct (Haw [K (self w); Z.of_nat F; channels (self w)]
                  (kernel_initializer (conv (self w))) "kernel"%string
                  (kernel_regularizer (conv (self w)))
                  (kernel_constraint (conv (self w))))
        as (t & Et & _); [repeat constructor; lia|]. congruence.
    + destruct (Haw [channels (self w)]
                  (bias_initializer (conv (self w))) "bias"%string
                  (bias_regularizer (conv (self w)))
                  (bias_constraint (conv (self w))))
        as (t & Et & _); [repeat constructor; lia|]. congruence.
Qed.
End Build.


(** ** The mask argument *)

(** C10.  When [call] is given masks, only [mask[0]], the mask of the
    node features, takes part: the masks that follow it, among them the
    mask of the operator, change nothing, and when [mask[0]] is a tensor
    [m] the value returned is the activation of the biased output times
    [m]. *)
Theorem C10_only_first_mask_used
    (rp : Z -> tensor -> Z -> option tensor)
    (inputs : tensor * tensor) (m0 : option tensor) (m : tensor)
    (rest : list (option tensor)) (w : World) :
  call rp inputs (Some (m0 :: rest)) w = call rp inputs (Some [m0]) w
  /\ call rp inputs (Some (Some m :: rest)) w
     = match call_expansion rp inputs w with
       | (Some y, w') =>
           (match bias_step (self w') y with
            | Some yb =>
                option_map (tmap (activation (conv (self w')))) (mul yb m)
            | None => None
            end, w')
       | (None, w') => (None, w')
       end.
Proof.
  rewrite !call_run.
  destruct (call_expansion rp inputs w) as [[y|] w']; [|split; reflexivity].
  unfold finish. destruct (bias_step (self w') y) as [yb|];
    [|split; reflexivity].
  split; [destruct m0; reflexivity|].
  cbn [mask_step]. destruct (mul yb m); reflexivity.
Qed.

(** ** Shapes *)

Section Shapes.

Lemma bshape_rev_refl (r : list nat) : bshape_rev r r = Some r.
Proof.
  induction r as [|d r IH]; [reflexivity|].
  cbn. now rewrite IH, Nat.eqb_refl.
Qed.

Lemma bshape_refl (s : list nat) : bshape s s = Some s.
Proof.
  unfold bshape. rewrite bshape_rev_refl. cbn. now rewrite rev_involutive.
Qed.

(** A mask of shape [(B, N, 1)] broadcasts against [(B, N, C)]. *)
Lemma bshape_mask (B N C : nat) :
  bshape [B; N; C] [B; N; 1%nat] = Some [B; N; C].
Proof.
  unfold bshape. cbn. rewrite !Nat.eqb_refl.
  destruct (C =? 1)%nat; reflexivity.
Qed.

Lemma bop_same_shape (f : Z -> Z -> Z) (t1 t2 : tensor) :
  shape t1 = shape t2 ->
  exists t, bop f t1 t2 = Some t /\ shape t = shape t1.
Proof.
  intros H. unfold bop. rewrite <- H, bshape_refl. eexists. split; reflexivity.
Qed.

Lemma KB_dot_shape (x w : tensor) (B N F C : nat) :
  shape x = [B; N; F] -> shape w = [F; C] ->
  exists y, KB_dot x w = Some y /\ shape y = [B; N; C].
Proof.
  intros Hx Hw. unfold KB_dot, rank. rewrite Hx, Hw. cbn.
  rewrite Nat.eqb_refl. eexists. split; reflexivity.
Qed.

Lemma modal_dot_shape (a t : tensor) (B N F : nat) :
  shape a = [B; N; N] -> shape t = [B; N; F] ->
  exists m, modal_dot a t = Some m /\ shape m = [B; N; F].
Proof.
  intros Ha Ht. unfold modal_dot. rewrite Ha, Ht, !Nat.eqb_refl. cbn.
  eexists. split; reflexivity.
Qed.

Lemma KB_bias_add_shape (y b : tensor) (B N C : nat) :
  shape y = [B; N; C] -> shape b = [C] ->
  exists z, KB_bias_add y b = Some z /\ shape z = [B; N; C].
Proof.
  intros Hy Hb. unfold KB_bias_add, rank. rewrite Hy, Hb. cbn.
  rewrite Nat.eqb_refl. eexists. split; reflexivity.
Qed.

Lemma mul_mask_shape (y m : tensor) (B N C : nat) :
  shape y = [B; N; C] -> shape m = [B; N; 1%nat] ->
  exists z, mul y m = Some z /\ shape z = [B; N; C].
Proof.
  intros Hy Hm. unfold mul, bop. rewrite Hy, Hm, bshape_mask.
  eexists. split; reflexivity.
Qed.

Variable rp : Z -> tensor -> Z -> option tensor.
Hypothesis rp_ok : reparam_contract rp.

Variables (a x W : tensor) (Kz : Z) (B N F C : nat).
Hypothesis Ha : shape a = [B; N; N].
Hypothesis Hx : shape x = [B; N; F].
Hypothesis HW : shape W = [Z.to_nat Kz; F; C].

(** Every Chebyshev term is defined and has the shape of [x]. *)
Lemma cheb_T_shape (k : nat) :
  exists t, cheb_T a x k = Some t /\ shape t = [B; N; F].
Proof.
  assert (two : (exists t, cheb_T a x k = Some t /\ shape t = [B; N; F])
                /\ (exists t, cheb_T a x (S k) = Some t
                              /\ shape t = [B; N; F])).
  { induction k as [|k IH].
    - split; [exists x; auto|]. cbn. now apply modal_dot_shape.
    - destruct IH as [(t0 & E0 & S0) (t1 & E1 & S1)].
      split; [exists t1; auto|].
      rewrite cheb_T_SS, E1, E0.
      destruct (modal_dot_shape a t1 B N F Ha S1) as (m & Em & Sm).
      rewrite Em. destruct (bop_same_shape Z.sub (scale 2 m) t0) as (d & Ed & Sd).
      { cbn. now rewrite Sm, S0. }
      exists d. split; [exact Ed|]. rewrite Sd. exact Sm. }
  apply two.
Qed.

(** Every partial sum of orders below [K] is defined and has the shape
    [(B, N, C)]. *)
Lemma cheb_sum_shape (n : nat) :
  Z.of_nat n < Kz ->
  exists y, cheb_sum rp Kz W a x n = Some y /\ shape y = [B; N; C].
Proof.
  assert (summand : forall k, Z.of_nat k < Kz ->
            exists d, cheb_summand rp Kz W a x k = Some d
                      /\ shape d = [B; N; C]).
  { intros k Hk. unfold cheb_summand.
    destruct (cheb_T_shape k) as (t & Et & St). rewrite Et.
    destruct (rp_ok Kz W (Z.of_nat k) F C HW) as (wk & Ew & Sw); [lia|].
    rewrite Ew. now apply (KB_dot_shape t wk B N F C). }
  induction n as [|n IH]; intros Hn.
  - apply (summand O Hn).
  - cbn [cheb_sum]. destruct IH as (acc & Ea & Sa); [lia|].
    destruct (summand (S n) Hn) as (d & Ed & Sd). rewrite Ea, Ed.
    destruct (bop_same_shape Z.add acc d) as (y & Ey & Sy);
      [now rewrite Sa, Sd|].
    exists y. split; [exact Ey|]. now rewrite Sy.
Qed.
End Shapes.

(** The closing steps keep the shape. *)
Lemma finish_shape (l : Layer) (mask : option (list (option tensor)))
    (y : tensor) (B N F : nat) :
  built_for l F -> mask_for mask B N ->
  shape y = [B; N; Z.to_nat (channels l)] ->
  exists z, finish l mask y = Some z
            /\ shape z = [B; N; Z.to_nat (channels l)].
Proof.
  intros [_ Hb] Hm Hy. unfold finish.
  assert (E : exists yb, bias_step l y = Some yb
                         /\ shape yb = [B; N; Z.to_nat (channels l)]).
  { unfold bias_step. destruct (use_bias (conv l)); [|exists y; auto].
    destruct (Hb eq_refl) as (b & Eb & Sb). rewrite Eb.
    now apply KB_bias_add_shape. }
  destruct E as (yb & -> & Syb).
  assert (E : exists ym, mask_step mask yb = Some ym
                         /\ shape ym = [B; N; Z.to_nat (channels l)]).
  { destruct mask as [[|[m|] rest]|]; cbn in Hm |- *; try contradiction.
    - now apply mul_mask_shape.
    - exists yb; auto. }
  destruct E as (ym & -> & Sym). eexists. split; [reflexivity|exact Sym].
Qed.

(** A layer built for [F] features maps the shapes [(B, N, F)] and
    [(B, N, N)] to [(B, N, channels)], and does return. *)
Lemma call_output_shape
    (rp : Z -> tensor -> Z -> option tensor) (x a : tensor)
    (mask : option (list (option tensor))) (w : World) (B N F : nat) :
  reparam_contract rp ->
  1 <= K (self w) ->
  built_for (self w) F ->
  mask_for mask B N ->
  shape x = [B; N; F] ->
  shape a = [B; N; N] ->
  exists y w',
    call rp (x, a) mask w = (Some y, w')
    /\ shape y = [B; N; Z.to_nat (channels (self w))].
Proof.
  intros Hrp HK Hb Hm Hx Ha. pose proof Hb as [(W & EW & SW) _].
  assert (Hw : has_weights (K (self w)) W w) by (split; [reflexivity|exact EW]).
  destruct (call_expansion_run rp (K (self w)) W x a w Hw HK) as [E _].
  destruct (cheb_sum_shape rp Hrp a x W (K (self w)) B N F
              (Z.to_nat (channels (self w))) Ha Hx SW
              (Z.to_nat (K (self w)) - 1)) as (y0 & E0 & S0); [lia|].
  rewrite E0 in E. rewrite call_run.
  pose proof (reads_only_call_expansion rp (x, a) w) as Fr.
  destruct (call_expansion rp (x, a) w) as [[y|] w']; cbn [fst snd] in *;
    [|discriminate E].
  injection E as ->. rewrite Fr.
  destruct (finish_shape (self w) mask y0 B N F Hb Hm S0) as (z & Ez & Sz).
  exists z, w'. now rewrite Ez.
Qed.

(** C4.  For a layer of order [K >= 1] built for [F_in] features, every
    input [x] of shape [(B, N, F_in)] and operator of shape [(B, N, N)],
    [call] returns, and its output has the shape [(B, N, channels)]: the
    leading dimensions of [x] with the last one replaced by [channels]. *)
Theorem C4_output_shape
    (rp : Z -> tensor -> Z -> option tensor) (x a : tensor)
    (mask : option (list (option tensor))) (w : World) (B N F : nat) :
  reparam_contract rp ->
  1 <= K (self w) ->
  built_for (self w) F ->
  mask_for mask B N ->
  shape x = [B; N; F] ->
  shape a = [B; N; N] ->
  exists y w',
    call rp (x, a) mask w = (Some y, w')
    /\ shape y = [B; N; Z.to_nat (channels (self w))].
Proof. exact (call_output_shape rp x a mask w B N F). Qed.

(** From construction to output: a layer of order [K >= 1] with
    [channels >= 0], built on the shapes of its inputs, returns an output of
    shape [(B, N, channels)]. *)
Lemma build_then_call_shape
    (aw : list Z -> string -> string -> option string -> option string ->
          option tensor)
    (rp : Z -> tensor -> Z -> option tensor) (x a : tensor)
    (mask : option (list (option tensor))) (w : World) (B N F : nat) :
  add_weight_contract aw ->
  reparam_contract rp ->
  1 <= K (self w) ->
  0 <= channels (self w) ->
  mask_for mask B N ->
  shape x = [B; N; F] ->
  shape a = [B; N; N] ->
  exists w1 y w2,
    build aw [shape x; shape a] w = (Some tt, w1)
    /\ call rp (x, a) mask w1 = (Some y, w2)
    /\ shape y = [B; N; Z.to_nat (channels (self w))].
Proof.
  intros Haw Hrp HK HC Hm Hx Ha.
  destruct (build_built_for aw [shape x; shape a] w F Haw)
    as (w1 & E1 & Hb & EK & EC & _); [lia | exact HC | cbn; lia | |].
  { cbn. rewrite Hx. reflexivity. }
  destruct (call_output_shape rp x a mask w1 B N F Hrp) as (y & w2 & E2 & S);
    [lia | exact Hb | exact Hm | exact Hx | exact Ha |].
  exists w1, y, w2. rewrite <- EC. auto.
Qed.

(** ** The concrete collaborators honour their contracts *)

Lemma sample_reparam_contract : reparam_contract Sample.sample_reparam.
Proof.
  intros Kz W k F C HW Hk. unfold Sample.sample_reparam. rewrite HW.
  destruct (Z.leb_spec 0 k); [|lia]. destruct (Z.ltb_spec k Kz); [|lia].
  cbn. eexists. split; reflexivity.
Qed.

Lemma sample_add_weight_contract : add_weight_contract Sample.sample_add_weight.
Proof.
  intros shp i n r c H. unfold Sample.sample_add_weight.
  assert (E : forallb (Z.leb 0) shp = true).
  { apply forallb_forall. intros d Hd. rewrite Forall_forall in H.
    apply Z.leb_le. now apply H. }
  rewrite E. eexists. split; reflexivity.
Qed.

(** The layer of order 3 on the path graph: [T_2] and the output, entry
    by entry, and the output under the mask. *)
Example cheb_T_2_path3 :
  option_map
    (fun t => map (get t)
       [[0; 0; 0]; [0; 0; 1]; [0; 1; 0]; [0; 1; 1]; [0; 2; 0]; [0; 2; 1]]%nat)
    (cheb_T Sample.path3 Sample.features 2)
  = Some [11; 14; 9; 12; 7; 10].
Proof. vm_compute. reflexivity. Qed.

Example call_path3 :
  option_map
    (fun t => map (get t)
       [[0; 0; 0]; [0; 0; 1]; [0; 1; 0]; [0; 1; 1]; [0; 2; 0]; [0; 2; 1]]%nat)
    (fst (call Sample.sample_reparam (Sample.features, Sample.path3) None
            (Sample.built_world (Sample.sample_layer 3 None true))))
  = Some [381; 381; 420; 420; 333; 333].
Proof. vm_compute. reflexivity. Qed.

Example call_path3_masked :
  option_map
    (fun t => map (get t)
       [[0; 0; 0]; [0; 0; 1]; [0; 1; 0]; [0; 1; 1]; [0; 2; 0]; [0; 2; 1]]%nat)
    (fst (call Sample.sample_reparam (Sample.features, Sample.path3)
            (Some [Some Sample.mask_middle; None])
            (Sample.built_world (Sample.sample_layer 3 None true))))
  = Some [381; 381; 0; 0; 333; 333].
Proof. vm_compute. reflexivity. Qed.

(** Construction, [build] and [call] in a row, with the concrete
    collaborators. *)
Example sample_build_then_call :
  exists w1 y w2,
    build Sample.sample_add_weight
      [shape Sample.features; shape Sample.path3]
      (mkWorld (Sample.sample_layer 3 None true) []) = (Some tt, w1)
    /\ call Sample.sample_reparam (Sample.features, Sample.path3) None w1
       = (Some y, w2)
    /\ shape y = [1; 3; 2]%nat.
Proof.
  apply (build_then_call_shape Sample.sample_add_weight Sample.sample_reparam
           Sample.features Sample.path3 None
           (mkWorld (Sample.sample_layer 3 None true) []) 1 3 2
           sample_add_weight_contract sample_reparam_contract);
    cbn; try lia; reflexivity.
Qed.

Lemma C4_output_shape_witness :
  let w := Sample.built_world (Sample.sample_layer 3 None true) in
  let mask := Some [Some Sample.mask_middle; None] in
  reparam_contract Sample.sample_reparam
  /\ 1 <= K (self w)
  /\ built_for (self w) 2
  /\ mask_for mask 1 3
  /\ shape Sample.features = [1; 3; 2]%nat
  /\ shape Sample.path3 = [1; 3; 3]%nat
  /\ exists y w',
       call Sample.sample_reparam (Sample.features, Sample.path3) mask w
         = (Some y, w')
       /\ shape y = [1; 3; 2]%nat.
Proof.
  cbv zeta.
  assert (Hb : built_for
                 (self (Sample.built_world (Sample.sample_layer 3 None true)))
                 2).
  { split; [|intros _]; eexists; split; reflexivity. }
  split; [exact sample_reparam_contract|].
  split; [vm_compute; discriminate|].
  split; [exact Hb|].
  split; [reflexivity|]. split; [reflexivity|]. split; [reflexivity|].
  apply (C4_output_shape Sample.sample_reparam Sample.features Sample.path3
           (Some [Some Sample.mask_middle; None])
           (Sample.built_world (Sample.sample_layer 3 None true)) 1 3 2).
  - exact sample_reparam_contract.
  - vm_compute; discriminate.
  - exact Hb.
  - reflexivity.
  - reflexivity.
  - reflexivity.
Defined.

(** ** Masking *)

(** An entry of a product is the product of the entries it is read
    from. *)
Lemma mul_get (y m pm : tensor) (idx : list nat) :
  mul y m = Some pm ->
  get pm idx = get y (bidx (shape y) idx) * get m (bidx (shape m) idx).
Proof.
  unfold mul, bop. destruct (bshape (shape y) (shape m)); [|discriminate].
  intros H. injection H as <-. reflexivity.
Qed.

(** The entry of a mask of shape [(B, N, 1)] that the output entry
    [(b, i, c)] is multiplied by is the mask of node [i] of graph [b]. *)
Lemma bidx_mask (B N b i c : nat) :
  (b < B)%nat -> (i < N)%nat ->
  bidx [B; N; 1%nat] [b; i; c] = [b; i; O].
Proof.
  intros Hb Hi. unfold bidx. cbn.
  destruct (Nat.eqb_spec B 1), (Nat.eqb_spec N 1); repeat f_equal; lia.
Qed.

(** The closing steps with a mask [m]: bias, then the product with [m],
    then the activation. *)
Lemma finish_masked (l : Layer) (m : tensor) (rest : list (option tensor))
    (y0 y : tensor) :
  finish l (Some (Some m :: rest)) y0 = Some y ->
  exists yb pm,
    bias_step l y0 = Some yb
    /\ mul yb m = Some pm
    /\ y = tmap (activation (conv l)) pm.
Proof.
  unfold finish. destruct (bias_step l y0) as [yb|]; [|discriminate].
  cbn [mask_step]. destruct (mul yb m) as [pm|] eqn:Em; [|discriminate].
  intros H. injection H as <-. exists yb, pm. repeat split. exact Em.
Qed.

(** C6 does not hold for every mask.  A mask of shape [(B, N)], here
    [(1, 2)] with a zero at node 0, is lined up with the last two
    dimensions of the output, the nodes and the channels: the product
    zeroes channel 0 of both nodes instead of node 0, and the entry of
    node 0 in channel 1 is returned as 3 where [activation(0)] is 0. *)
Lemma C6_mask_of_shape_B_N_counterexample :
  let w := snd (build Sample.sample_add_weight [[1; 2; 2]; [1; 2; 2]]%nat
                  (mkWorld (Sample.sample_layer 1 None true) [])) in
  shape Sample.flat_mask = [1; 2]%nat
  /\ get Sample.flat_mask [0; 0]%nat = 0
  /\ exists y w',
       call Sample.sample_reparam (Sample.two_nodes, Sample.pair)
         (Some [Some Sample.flat_mask; None]) w = (Some y, w')
       /\ map (get y) [[0; 0; 0]; [0; 0; 1]; [0; 1; 0]; [0; 1; 1]]%nat
          = [0; 3; 0; 7]
       /\ get y [0; 0; 1]%nat <> activation (conv (self w)) 0.
Proof.
  cbv zeta. split; [reflexivity|]. split; [reflexivity|].
  do 2 eexists. split; [reflexivity|]. split; [vm_compute; reflexivity|].
  vm_compute. discriminate.
Qed.

(** C6, amended.  When a mask is provided, [call] multiplies the output by
    [mask[0]] after the bias was added and before the activation is
    applied.  For a mask [m] of shape [(B, N, 1)] that is zero at node [i]
    of graph [b], every entry of row [i] of the masked output is the
    product of an entry of the biased output with that zero, and the value
    returned there is the activation of this product. *)
Theorem C6_masked_row_is_product_with_zero
    (rp : Z -> tensor -> Z -> option tensor) (x a m : tensor)
    (rest : list (option tensor)) (w w' : World) (y : tensor)
    (B N b i : nat) :
  call rp (x, a) (Some (Some m :: rest)) w = (Some y, w') ->
  shape m = [B; N; 1%nat] ->
  (b < B)%nat -> (i < N)%nat ->
  get m [b; i; O] = 0 ->
  exists y0 yb pm,
    fst (call_expansion rp (x, a) w) = Some y0
    /\ bias_step (self w) y0 = Some yb
    /\ mul yb m = Some pm
    /\ y = tmap (activation (conv (self w))) pm
    /\ forall c,
         get pm [b; i; c] = get yb (bidx (shape yb) [b; i; c]) * 0
         /\ get y [b; i; c]
            = activation (conv (self w))
                (get yb (bidx (shape yb) [b; i; c]) * 0).
Proof.
  intros Hc Hm Hb Hi Hz. rewrite call_run in Hc.
  pose proof (reads_only_call_expansion rp (x, a) w) as Fr.
  destruct (call_expansion rp (x, a) w) as [[y0|] w0]; [|discriminate Hc].
  cbn [fst snd] in *. injection Hc as Hf <-. rewrite Fr in Hf.
  destruct (finish_masked _ _ _ _ _ Hf) as (yb & pm & Eb & Em & ->).
  exists y0, yb, pm. repeat split; auto.
  - now rewrite (mul_get yb m pm _ Em), Hm, bidx_mask, Hz.
  - cbn [get tmap].
    now rewrite (mul_get yb m pm _ Em), Hm, bidx_mask, Hz.
Qed.

Lemma C6_masked_row_is_product_with_zero_witness :
  let w := Sample.built_world (Sample.sample_layer 3 (Some Sample.relu) true) in
  exists y w',
    call Sample.sample_reparam (Sample.features, Sample.path3)
      (Some [Some Sample.mask_middle; None]) w = (Some y, w')
    /\ shape Sample.mask_middle = [1; 3; 1]%nat
    /\ (0 < 1)%nat /\ (1 < 3)%nat
    /\ get Sample.mask_middle [0; 1; 0]%nat = 0
    /\ forall c, exists v, get y [0; 1; c]%nat = Sample.relu (v * 0).
Proof.
  cbv zeta.
  destruct (call Sample.sample_reparam (Sample.features, Sample.path3)
              (Some [Some Sample.mask_middle; None])
              (Sample.built_world
                 (Sample.sample_layer 3 (Some Sample.relu) true)))
    as [[y|] w'] eqn:E.
  2:{ exfalso.
      assert (H : option_map shape
                    (fst (call Sample.sample_reparam
                            (Sample.features, Sample.path3)
                            (Some [Some Sample.mask_middle; None])
                            (Sample.built_world
                               (Sample.sample_layer 3 (Some Sample.relu)
                                  true))))
                  = Some [1; 3; 2]%nat) by (vm_compute; reflexivity).
      rewrite E in H. discriminate H. }
  exists y, w'. split; [reflexivity|]. split; [reflexivity|].
  split; [lia|]. split; [lia|]. split; [reflexivity|].
  intros c.
  destruct (C6_masked_row_is_product_with_zero Sample.sample_reparam
              Sample.features Sample.path3 Sample.mask_middle [None]
              (Sample.built_world
                 (Sample.sample_layer 3 (Some Sample.relu) true))
              w' y 1 3 0 1 E eq_refl) as (y0 & yb & pm & _ & _ & _ & _ & H);
    [lia | lia | reflexivity |].
  eexists. apply H.
Defined.

(** ** Bias *)

(** C5 does not hold as stated: with a layer whose activation is [relu],
    a node feature of -5, kernel 1 and bias 2, the outputs with and without
    bias are both 0; and with the identity activation and a mask that is 0,
    they are both 0 as well.  In neither case is the difference the
    bias. *)
Lemma C5_bias_difference_counterexample :
  (exists y0 y1 w0 w1,
     call Sample.sample_reparam (Sample.cold_node, Sample.one_node) None
       (mkWorld (Sample.trained_layer (Some Sample.relu) false) [])
       = (Some y0, w0)
     /\ call Sample.sample_reparam (Sample.cold_node, Sample.one_node) None
          (mkWorld (Sample.trained_layer (Some Sample.relu) true) [])
          = (Some y1, w1)
     /\ get y1 [0; 0; 0]%nat - get y0 [0; 0; 0]%nat <> get (of_vector [2]) [O])
  /\ (exists y0 y1 w0 w1,
        call Sample.sample_reparam (Sample.cold_node, Sample.one_node)
          (Some [Some (full [1; 1; 1]%nat 0)])
          (mkWorld (Sample.trained_layer None false) []) = (Some y0, w0)
        /\ call Sample.sample_reparam (Sample.cold_node, Sample.one_node)
             (Some [Some (full [1; 1; 1]%nat 0)])
             (mkWorld (Sample.trained_layer None true) []) = (Some y1, w1)
        /\ get y1 [0; 0; 0]%nat - get y0 [0; 0; 0]%nat
           <> get (of_vector [2]) [O]).
Proof.
  split; do 4 eexists; (split; [reflexivity|]); (split; [reflexivity|]);
    vm_compute; discriminate.
Qed.

(** C5, amended.  When no mask is given and the activation is the identity,
    the output of [call] with the bias enabled is [KB.bias_add] applied to
    the output with the bias disabled and the bias vector: it has the same
    shape, and each entry is the entry without bias plus the bias entry of
    its channel, the bias being broadcast over the leading dimensions,
    whatever [x] and the operator are. *)
Theorem C5_bias_enabled_is_bias_add
    (rp : Z -> tensor -> Z -> option tensor) (x a b : tensor)
    (l0 l1 : Layer) (tr0 tr1 : list event) (y0 y1 : tensor)
    (w0 w1 : World) :
  K l1 = K l0 ->
  kernel l1 = kernel l0 ->
  use_bias (conv l0) = false ->
  use_bias (conv l1) = true ->
  bias l1 = Some b ->
  activation (conv l0) = (fun z => z) ->
  activation (conv l1) = (fun z => z) ->
  call rp (x, a) None (mkWorld l0 tr0) = (Some y0, w0) ->
  call rp (x, a) None (mkWorld l1 tr1) = (Some y1, w1) ->
  KB_bias_add y0 b = Some y1
  /\ shape y1 = shape y0
  /\ forall idx,
       get y1 idx = get y0 idx + get b [nth (rank y0 - 1) idx O].
Proof.
  intros HK Hk Hu0 Hu1 Hb Ha0 Ha1 H0 H1.
  rewrite call_run in H0, H1.
  pose proof (call_expansion_value rp x a (mkWorld l0 tr0)) as V0.
  pose proof (call_expansion_value rp x a (mkWorld l1 tr1)) as V1.
  pose proof (reads_only_call_expansion rp (x, a) (mkWorld l0 tr0)) as F0.
  pose proof (reads_only_call_expansion rp (x, a) (mkWorld l1 tr1)) as F1.
  cbn [self] in V0, V1, F0, F1. rewrite HK, Hk, <- V0 in V1. clear V0.
  destruct (call_expansion rp (x, a) (mkWorld l0 tr0)) as [[e0|] v0];
    [|discriminate H0].
  destruct (call_expansion rp (x, a) (mkWorld l1 tr1)) as [[e1|] v1];
    [|discriminate H1].
  cbn [fst snd] in *. injection V1 as ->.
  injection H0 as H0 _. injection H1 as H1 _. rewrite F0 in H0.
  rewrite F1 in H1. unfold finish, bias_step in H0, H1.
  rewrite Hu0, Ha0 in H0. rewrite Hu1, Hb, Ha1 in H1. cbn in H0.
  injection H0 as <-. unfold KB_bias_add in H1 |- *.
  unfold rank in *. cbn [shape tmap] in *.
  destruct (shape b) as [|C [|]]; try discriminate H1.
  destruct ((2 <=? length (shape e0))%nat
            && (nth (length (shape e0) - 1) (shape e0) 0 =? C)%nat)%bool;
    [|discriminate H1].
  cbn in H1. injection H1 as <-. repeat split.
Qed.

Lemma C5_bias_enabled_is_bias_add_witness :
  let l0 := Sample.trained_layer None false in
  let l1 := Sample.trained_layer None true in
  exists y0 y1 w0 w1,
    call Sample.sample_reparam (Sample.cold_node, Sample.one_node) None
      (mkWorld l0 []) = (Some y0, w0)
    /\ call Sample.sample_reparam (Sample.cold_node, Sample.one_node) None
         (mkWorld l1 []) = (Some y1, w1)
    /\ KB_bias_add y0 (of_vector [2]) = Some y1
    /\ shape y1 = shape y0
    /\ forall idx,
         get y1 idx
         = get y0 idx + get (of_vector [2]) [nth (rank y0 - 1) idx O].
Proof.
  cbv zeta. do 4 eexists. split; [reflexivity|]. split; [reflexivity|].
  eapply (C5_bias_enabled_is_bias_add Sample.sample_reparam
           Sample.cold_node Sample.one_node (of_vector [2])
           (Sample.trained_layer None false) (Sample.trained_layer None true)
           [] []); reflexivity.
Defined.

(** ** Configuration errors *)







(** ** Preprocessing *)

Section PreprocessFacts.
Import Preprocess.
Local Open Scope R_scope.

Lemma rsum_ext (n : nat) (f g : nat -> R) :
  (forall k, (k < n)%nat -> f k = g k) -> rsum n f = rsum n g.
Proof.
  induction n as [|n IH]; intros H; [reflexivity|].
  cbn. rewrite IH, (H n) by (intros; auto with arith). reflexivity.
Qed.

Lemma rsum_zero (n : nat) (f : nat -> R) :
  (forall k, (k < n)%nat -> f k = 0) -> rsum n f = 0.
Proof.
  induction n as [|n IH]; intros H; [reflexivity|].
  cbn. rewrite IH, (H n) by (intros; auto with arith). lra.
Qed.

(** A sum that a diagonal factor reduces to one summand. *)
Lemma rsum_pick (n i : nat) (f : nat -> R) :
  (i < n)%nat ->
  rsum n (fun k => if (i =? k)%nat then f k else 0) = f i.
Proof.
  induction n as [|n IH]; intros Hi; [lia|].
  cbn. destruct (Nat.eqb_spec i n) as [->|Hn].
  - rewrite rsum_zero; [lra|]. intros k Hk.
    destruct (Nat.eqb_spec n k); [lia|reflexivity].
  - rewrite IH by lia. lra.
Qed.

Lemma dot_diag_l (n : nat) (d : nat -> R) (a : ndarray) (i j : nat) :
  (i < n)%nat ->
  entry (dot (diag n d) a) i j = d i * entry a i j.
Proof.
  intros Hi. cbn.
  rewrite (rsum_ext n _ (fun k => if (i =? k)%nat
                                  then d i * entry a k j else 0)).
  - now rewrite rsum_pick.
  - intros k _. destruct (i =? k)%nat; lra.
Qed.

Lemma dot_diag_r (n : nat) (d : nat -> R) (a : ndarray) (i j : nat) :
  ncols a = n -> (j < n)%nat ->
  entry (dot a (diag n d)) i j = entry a i j * d j.
Proof.
  intros Hn Hj. cbn. rewrite Hn.
  rewrite (rsum_ext n _ (fun k => if (j =? k)%nat
                                  then entry a i k * d k else 0)).
  - now rewrite rsum_pick.
  - intros k _. rewrite Nat.eqb_sym. destruct (j =? k)%nat; lra.
Qed.

(** The entries of the normalized Laplacian of a matrix with [n]
    columns. *)
Lemma normalized_laplacian_entry (a : ndarray) (i j : nat) :
  (i < ncols a)%nat -> (j < ncols a)%nat ->
  entry (normalized_laplacian a) i j
  = delta i j - / sqrt (degree a i) * entry a i j * / sqrt (degree a j).
Proof.
  intros Hi Hj. unfold normalized_laplacian. cbv zeta.
  cbn [minus entry eye].
  rewrite dot_diag_r by (auto; reflexivity).
  now rewrite dot_diag_l.
Qed.
End PreprocessFacts.

(** C7.  For every square adjacency matrix [a], [preprocess(a)] is the
    rescaling applied to the normalized Laplacian
    [L = I - D^(-1/2) A D^(-1/2)], computed in this order; it has the shape
    of [a]; being a function of [a] and of the eigenvalue estimate alone,
    it is deterministic and touches no layer. *)
Theorem C7_preprocess_rescaled_normalized_laplacian
    (lmax : Preprocess.ndarray -> R) (a : Preprocess.ndarray) (n : nat) :
  Preprocess.nrows a = n ->
  Preprocess.ncols a = n ->
  Preprocess.preprocess lmax a
    = Preprocess.rescale_laplacian lmax (Preprocess.normalized_laplacian a)
  /\ Preprocess.nrows (Preprocess.preprocess lmax a) = Preprocess.nrows a
  /\ Preprocess.ncols (Preprocess.preprocess lmax a) = Preprocess.ncols a
  /\ forall i j, (i < n)%nat -> (j < n)%nat ->
       let L := Preprocess.normalized_laplacian a in
       (Preprocess.entry L i j
        = Preprocess.delta i j
          - / sqrt (Preprocess.degree a i) * Preprocess.entry a i j
            * / sqrt (Preprocess.degree a j))%R
       /\ (Preprocess.entry (Preprocess.preprocess lmax a) i j
           = 2 / lmax L * Preprocess.entry L i j - Preprocess.delta i j)%R.
Proof.
  intros Hr Hc. split; [reflexivity|].
  split; [cbn; congruence|]. split; [reflexivity|].
  intros i j Hi Hj L. split; [|reflexivity].
  apply normalized_laplacian_entry; now rewrite Hc.
Qed.

Lemma C7_preprocess_rescaled_normalized_laplacian_witness :
  let lmax := fun _ : Preprocess.ndarray => 2%R in
  Preprocess.nrows Preprocess.path3 = 3%nat
  /\ Preprocess.ncols Preprocess.path3 = 3%nat
  /\ Preprocess.nrows (Preprocess.preprocess lmax Preprocess.path3) = 3%nat
  /\ Preprocess.ncols (Preprocess.preprocess lmax Preprocess.path3) = 3%nat.
Proof.
  cbv zeta. split; [reflexivity|]. split; [reflexivity|].
  destruct (C7_preprocess_rescaled_normalized_laplacian
              (fun _ => 2%R) Preprocess.path3 3 eq_refl eq_refl)
    as (_ & Hr & Hc & _).
  split; [exact Hr | exact Hc].
Defined.

(* ================================================================== *)
(** * Further properties *)

Import More.

(** ** [build] *)

Section BuildRun.
Variable aw :
  list Z -> string -> string -> option string -> option string ->
  option tensor.

(** [build], step by step. *)
Lemma build_run (input_shape : list (list nat)) (w : World) :
  build aw input_shape w =
  let l := self w in
  if (2 <=? length input_shape)%nat then
    match last_dim (nth 0 input_shape []) with
    | None => (None, w)
    | Some d =>
        let e1 := EvAddWeight [K l; Z.of_nat d; channels l] "kernel" in
        match aw [K l; Z.of_nat d; channels l]
                (kernel_initializer (conv l)) "kernel"
                (kernel_regularizer (conv l)) (kernel_constraint (conv l))
        with
        | None => (None, mkWorld l (trace w ++ [e1]))
        | Some kt =>
            let t2 := (trace w ++ [e1]) ++ [EvPrintShape (shape kt)] in
            if use_bias (conv l) then
              match aw [channels l] (bias_initializer (conv l)) "bias"
                      (bias_regularizer (conv l)) (bias_constraint (conv l))
              with
              | None =>
                  (None,
                   mkWorld
                     (mkLayer (conv l) (channels l) (K l) (Some kt) (bias l)
                        (built l))
                     (t2 ++ [EvAddWeight [channels l] "bias"]))
              | Some b =>
                  (Some tt,
                   mkWorld
                     (mkLayer (conv l) (channels l) (K l) (Some kt) (Some b)
                        true)
                     ((t2 ++ [EvAddWeight [channels l] "bias"])
                        ++ [EvPrint "HALLO CHEBCONV 2"]))
              end
            else
              (Some tt,
               mkWorld
                 (mkLayer (conv l) (channels l) (K l) (Some kt) (bias l) true)
                 (t2 ++ [EvPrint "HALLO CHEBCONV 2"]))
        end
    end
  else (None, w).
Proof.
  cbv zeta. unfold build. rewrite bind_run.
  destruct (2 <=? length input_shape)%nat; [|reflexivity].
  cbn [ret]. rewrite bind_run, lift_run.
  destruct (last_dim (nth 0 input_shape [])) as [d|]; [|reflexivity].
  do 5 rewrite bind_run, attr_run.
  unfold self_add_weight at 1.
  rewrite bind_run, bind_run, emit_run, lift_run. cbn [self].
  destruct (aw [K (self w); Z.of_nat d; channels (self w)]
              (kernel_initializer (conv (self w))) "kernel"
              (kernel_regularizer (conv (self w)))
              (kernel_constraint (conv (self w)))) as [kt|];
    [|reflexivity].
  rewrite bind_run. cbn [set_kernel modify self trace].
  rewrite bind_run, attr_opt_run. cbn [self kernel].
  rewrite bind_run, emit_run. cbn [self trace].
  rewrite bind_run, attr_run. cbn [self conv].
  rewrite bind_run.
  destruct (use_bias (conv (self w))).
  - do 4 rewrite bind_run, attr_run.
    unfold self_add_weight.
    rewrite bind_run, bind_run, emit_run, lift_run.
    cbn [self channels conv].
    destruct (aw [channels (self w)] (bias_initializer (conv (self w)))
                "bias" (bias_regularizer (conv (self w)))
                (bias_constraint (conv (self w)))) as [b|];
      reflexivity.
  - reflexivity.
Qed.
End BuildRun.

(** X1.  [build] given fewer than two input shapes, or a first input shape
    without dimensions, raises before it asks for any weight: the layer and
    the trace are as before. *)
Theorem X1_build_raises_early_untouched
    (aw : list Z -> string -> string -> option string -> option string ->
          option tensor)
    (input_shape : list (list nat)) (w : World) :
  (length input_shape < 2)%nat \/ nth 0 input_shape [] = [] ->
  build aw input_shape w = (None, w).
Proof.
  intros H. rewrite build_run. cbv zeta.
  destruct (Nat.leb_spec 2 (length input_shape)) as [Hl|Hl]; [|reflexivity].
  destruct H as [H|H]; [lia|]. now rewrite H.
Qed.

Lemma X1_build_raises_early_untouched_witness :
  let w := mkWorld (Sample.sample_layer 3 None true) [] in
  ((length [[1; 3; 2]%nat] < 2)%nat \/ nth 0 [[1; 3; 2]%nat] [] = [])
  /\ build Sample.sample_add_weight [[1; 3; 2]%nat] w = (None, w).
Proof.
  cbv zeta. split; [left; cbn; lia|].
  apply (X1_build_raises_early_untouched Sample.sample_add_weight
           [[1; 3; 2]%nat] (mkWorld (Sample.sample_layer 3 None true) [])).
  left. cbn. lia.
Defined.

(** X2.  Of its argument, [build] uses the last dimension of the first
    input shape and nothing else: the shape of the operator, and any further
    shape, has no influence on the weights created, on the trace or on
    whether [build] raises. *)
Theorem X2_build_uses_feature_dimension_only
    (aw : list Z -> string -> string -> option string -> option string ->
          option tensor)
    (s1 s2 : list (list nat)) (w : World) :
  (2 <= length s1)%nat -> (2 <= length s2)%nat ->
  last_dim (nth 0 s1 []) = last_dim (nth 0 s2 []) ->
  build aw s1 w = build aw s2 w.
Proof.
  intros H1 H2 E. rewrite !build_run. cbv zeta.
  destruct (Nat.leb_spec 2 (length s1)); [|lia].
  destruct (Nat.leb_spec 2 (length s2)); [|lia].
  now rewrite E.
Qed.

Lemma X2_build_uses_feature_dimension_only_witness :
  let w := mkWorld (Sample.sample_layer 3 None true) [] in
  build Sample.sample_add_weight [[1; 3; 2]; [1; 3; 3]]%nat w
  = build Sample.sample_add_weight [[4; 9; 2]; [7; 5]; [1]]%nat w.
Proof.
  cbv zeta.
  apply (X2_build_uses_feature_dimension_only Sample.sample_add_weight
           [[1; 3; 2]; [1; 3; 3]]%nat [[4; 9; 2]; [7; 5]; [1]]%nat
           (mkWorld (Sample.sample_layer 3 None true) []));
    [cbn; lia | cbn; lia | reflexivity].
Defined.

(** X3.  A [build] that completes has asked the framework for the kernel
    with the shape [(K, input_dim, channels)], printed the shape of the
    kernel, asked for the bias with the shape [(channels,)] exactly when
    [use_bias] is set, and printed its greeting, in this order and nothing
    else; the kernel of the layer is the tensor it was handed. *)
Theorem X3_build_requests_and_prints
    (aw : list Z -> string -> string -> option string -> option string ->
          option tensor)
    (input_shape : list (list nat)) (w w' : World) :
  build aw input_shape w = (Some tt, w') ->
  exists d kt,
    last_dim (nth 0 input_shape []) = Some d
    /\ aw [K (self w); Z.of_nat d; channels (self w)]
          (kernel_initializer (conv (self w))) "kernel"%string
          (kernel_regularizer (conv (self w)))
          (kernel_constraint (conv (self w))) = Some kt
    /\ kernel (self w') = Some kt
    /\ trace w' = trace w ++ build_events (self w) d kt.
Proof.
  rewrite build_run. cbv zeta. unfold build_events.
  destruct (2 <=? length input_shape)%nat; [|discriminate].
  destruct (last_dim (nth 0 input_shape [])) as [d|] eqn:Hd;
    [|discriminate].
  destruct (aw [K (self w); Z.of_nat d; channels (self w)]
              (kernel_initializer (conv (self w))) "kernel"%string
              (kernel_regularizer (conv (self w)))
              (kernel_constraint (conv (self w)))) as [kt|] eqn:Hk;
    [|discriminate].
  destruct (use_bias (conv (self w))).
  - destruct (aw [channels (self w)] (bias_initializer (conv (self w)))
                "bias"%string (bias_regularizer (conv (self w)))
                (bias_constraint (conv (self w)))) as [b|];
      [|discriminate].
    intros H. injection H as <-. exists d, kt. cbn.
    repeat split; auto. now rewrite <- !app_assoc.
  - intros H. injection H as <-. exists d, kt. cbn.
    repeat split; auto. now rewrite <- !app_assoc.
Qed.

Lemma X3_build_requests_and_prints_witness :
  exists w',
    build Sample.sample_add_weight [[1; 3; 2]; [1; 3; 3]]%nat
      (mkWorld (Sample.sample_layer 3 None true) []) = (Some tt, w')
    /\ trace w'
       = [EvAddWeight [3; 2; 2] "kernel"; EvPrintShape [3; 2; 2]%nat;
          EvAddWeight [2] "bias"; EvPrint "HALLO CHEBCONV 2"].
Proof.
  eexists. split; [reflexivity|].
  destruct (X3_build_requests_and_prints Sample.sample_add_weight
              [[1; 3; 2]; [1; 3; 3]]%nat
              (mkWorld (Sample.sample_layer 3 None true) []) _ eq_refl)
    as (d & kt & _ & _ & _ & _).
  reflexivity.
Defined.

(** X4.  [build] is not atomic: when the framework raises for the bias, the
    kernel has already been assigned, while [built] and the bias are as
    before. *)
Theorem X4_build_raising_at_bias_keeps_kernel
    (aw : list Z -> string -> string -> option string -> option string ->
          option tensor)
    (input_shape : list (list nat)) (w : World) (d : nat) (kt : tensor) :
  (2 <= length input_shape)%nat ->
  last_dim (nth 0 input_shape []) = Some d ->
  aw [K (self w); Z.of_nat d; channels (self w)]
     (kernel_initializer (conv (self w))) "kernel"%string
     (kernel_regularizer (conv (self w)))
     (kernel_constraint (conv (self w))) = Some kt ->
  use_bias (conv (self w)) = true ->
  aw [channels (self w)] (bias_initializer (conv (self w))) "bias"%string
     (bias_regularizer (conv (self w))) (bias_constraint (conv (self w)))
  = None ->
  let r := build aw input_shape w in
  fst r = None
  /\ kernel (self (snd r)) = Some kt
  /\ bias (self (snd r)) = bias (self w)
  /\ built (self (snd r)) = built (self w).
Proof.
  intros Hl Hd Hk Hu Hb r. subst r. rewrite build_run. cbv zeta.
  destruct (Nat.leb_spec 2 (length input_shape)); [|lia].
  rewrite Hd, Hk, Hu, Hb. cbn. auto.
Qed.

(** X5.  [build] never reads the kernel, the bias or the [built] flag of
    the layer: run on two layers with the same configuration, it raises on
    both or completes on both, and then leaves the same kernel, [built]
    set, and, when [use_bias] is set, the same bias, whatever weights the
    layers held before. *)
Theorem X5_build_overwrites_weights
    (aw : list Z -> string -> string -> option string -> option string ->
          option tensor)
    (input_shape : list (list nat)) (w1 w2 : World) :
  conv (self w1) = conv (self w2) ->
  channels (self w1) = channels (self w2) ->
  K (self w1) = K (self w2) ->
  let r1 := build aw input_shape w1 in
  let r2 := build aw input_shape w2 in
  fst r1 = fst r2
  /\ (fst r1 = Some tt ->
      kernel (self (snd r1)) = kernel (self (snd r2))
      /\ built (self (snd r1)) = true
      /\ built (self (snd r2)) = true
      /\ (use_bias (conv (self w1)) = true ->
          bias (self (snd r1)) = bias (self (snd r2)))).
Proof.
  intros Hc Hch HK r1 r2. subst r1 r2. rewrite !build_run. cbv zeta.
  rewrite Hc, Hch, HK.
  destruct (2 <=? length input_shape)%nat; [|split; [reflexivity|discriminate]].
  destruct (last_dim (nth 0 input_shape [])) as [d|];
    [|split; [reflexivity|discriminate]].
  destruct (aw [K (self w2); Z.of_nat d; channels (self w2)]
              (kernel_initializer (conv (self w2))) "kernel"%string
              (kernel_regularizer (conv (self w2)))
              (kernel_constraint (conv (self w2)))) as [kt|];
    [|split; [reflexivity|discriminate]].
  destruct (use_bias (conv (self w2))).
  - destruct (aw [channels (self w2)] (bias_initializer (conv (self w2)))
                "bias"%string (bias_regularizer (conv (self w2)))
                (bias_constraint (conv (self w2)))) as [b|];
      [|split; [reflexivity|discriminate]].
    cbn. auto.
  - cbn. repeat split; auto. discriminate.
Qed.

Lemma X4_build_raising_at_bias_keeps_kernel_witness :
  let w := mkWorld (Sample.sample_layer 3 None true) [] in
  let r := build add_weight_without_bias [[1; 3; 2]; [1; 3; 3]]%nat w in
  fst r = None
  /\ kernel (self (snd r)) = Some (full [3; 2; 2]%nat 1)
  /\ bias (self (snd r)) = None
  /\ built (self (snd r)) = false.
Proof.
  cbv zeta.
  apply (X4_build_raising_at_bias_keeps_kernel add_weight_without_bias
           [[1; 3; 2]; [1; 3; 3]]%nat
           (mkWorld (Sample.sample_layer 3 None true) []) 2
           (full [3; 2; 2]%nat 1));
    [cbn; lia | reflexivity | reflexivity | reflexivity | reflexivity].
Defined.

Lemma X5_build_overwrites_weights_witness :
  let fresh := mkWorld (Sample.sample_layer 1 None true) [] in
  let trained :=
    mkWorld
      (mkLayer (conv (Sample.sample_layer 1 None true)) 2 1
         (Some (full [1; 2; 2]%nat 5)) (Some (full [2]%nat 3)) true) [] in
  let r1 := build Sample.sample_add_weight [[1; 3; 2]; [1; 3; 3]]%nat fresh in
  let r2 :=
    build Sample.sample_add_weight [[1; 3; 2]; [1; 3; 3]]%nat trained in
  fst r1 = Some tt
  /\ kernel (self (snd r1)) = kernel (self (snd r2))
  /\ bias (self (snd r1)) = bias (self (snd r2)).
Proof.
  cbv zeta.
  destruct (X5_build_overwrites_weights Sample.sample_add_weight
              [[1; 3; 2]; [1; 3; 3]]%nat
              (mkWorld (Sample.sample_layer 1 None true) [])
              (mkWorld
                 (mkLayer (conv (Sample.sample_layer 1 None true)) 2 1
                    (Some (full [1; 2; 2]%nat 5)) (Some (full [2]%nat 3))
                    true) [])
              eq_refl eq_refl eq_refl) as [_ H].
  destruct (H eq_refl) as (Hk & _ & _ & Hb).
  split; [reflexivity|]. split; [exact Hk | exact (Hb eq_refl)].
Defined.

(** ** Edge cases of [call] *)

(** X6.  [call] on a layer that has no kernel, as before [build], raises at
    its first read of [self.kernel]: the reparameterization is not called
    and the world is as before.  On a layer whose bias is enabled but was
    never created, [call] raises as well. *)
Theorem X6_call_without_weights_raises
    (rp : Z -> tensor -> Z -> option tensor) (inputs : tensor * tensor)
    (mask : option (list (option tensor))) (w : World) :
  (kernel (self w) = None -> call rp inputs mask w = (None, w))
  /\ (use_bias (conv (self w)) = true -> bias (self w) = None ->
      fst (call rp inputs mask w) = None).
Proof.
  split.
  - intros Hk. rewrite call_run. destruct inputs as [x a].
    unfold call_expansion.
    now rewrite bind_run, attr_run, bind_run, attr_opt_run, Hk.
  - intros Hu Hb. rewrite call_run.
    pose proof (reads_only_call_expansion rp inputs w) as Fr.
    destruct (call_expansion rp inputs w) as [[y|] w']; [|reflexivity].
    cbn [fst snd] in *. unfold finish, bias_step. now rewrite Fr, Hu, Hb.
Qed.

Lemma X6_call_without_weights_raises_witness :
  let w := mkWorld (Sample.sample_layer 3 None true) [] in
  let half :=
    snd (build add_weight_without_bias [[1; 3; 2]; [1; 3; 3]]%nat w) in
  kernel (self w) = None
  /\ call Sample.sample_reparam (Sample.features, Sample.path3) None w
     = (None, w)
  /\ use_bias (conv (self half)) = true
  /\ bias (self half) = None
  /\ fst (call Sample.sample_reparam (Sample.features, Sample.path3) None
            half) = None.
Proof.
  cbv zeta. split; [reflexivity|].
  split.
  - apply (proj1 (X6_call_without_weights_raises Sample.sample_reparam
                    (Sample.features, Sample.path3) None
                    (mkWorld (Sample.sample_layer 3 None true) []))).
    reflexivity.
  - split; [reflexivity|]. split; [reflexivity|].
    apply (proj2 (X6_call_without_weights_raises Sample.sample_reparam
                    (Sample.features, Sample.path3) None
                    (snd (build add_weight_without_bias
                            [[1; 3; 2]; [1; 3; 3]]%nat
                            (mkWorld (Sample.sample_layer 3 None true)
                               []))))); reflexivity.
Defined.



(** X8.  A mask list that is empty, or whose first element is [None] (the
    node features carry no mask while another input does), makes [call]
    raise at the mask step, whatever the other masks are: no output is
    returned, and the world is the one the expansion left. *)
Theorem X8_call_with_unusable_mask_raises
    (rp : Z -> tensor -> Z -> option tensor) (inputs : tensor * tensor)
    (rest : list (option tensor)) (w : World) :
  call rp inputs (Some []) w = (None, snd (call_expansion rp inputs w))
  /\ call rp inputs (Some (None :: rest)) w
     = (None, snd (call_expansion rp inputs w)).
Proof.
  rewrite !call_run.
  destruct (call_expansion rp inputs w) as [[y|] w']; [|split; reflexivity].
  unfold finish. destruct (bias_step (self w') y); split; reflexivity.
Qed.

(** ** What [call] emits and what it reads *)

Section Tidy.
Variable rp : Z -> tensor -> Z -> option tensor.

Lemma tidy_pure {A} (m : M World A) (w : World) :
  snd (m w) = w -> tidy m w.
Proof.
  intros H. exists []. split; [|constructor].
  rewrite H. symmetry. apply logged_nil.
Qed.

Lemma tidy_bind {A B} (m : M World A) (k : A -> M World B) (w : World) :
  tidy m w ->
  (forall a w', m w = (Some a, w') -> tidy (k a) w') ->
  tidy (bind m k) w.
Proof.
  intros (es1 & E1 & F1) Hk. unfold tidy. rewrite bind_run.
  destruct (m w) as [[a|] w'] eqn:Em; cbn [snd] in E1.
  - destruct (Hk a w' eq_refl) as (es2 & E2 & F2).
    exists (es1 ++ es2). rewrite E2, E1, logged_logged. split; [reflexivity|].
    apply Forall_app. split; [exact F1|]. now rewrite E1 in F2.
  - exists es1. auto.
Qed.

Lemma tidy_reparam (Kz : Z) (W : tensor) (k : Z) (w : World) :
  K (self w) = Kz -> kernel (self w) = Some W ->
  tidy (reparam rp Kz W k) w.
Proof.
  intros HK HW. exists [EvReparam Kz W k]. rewrite reparam_run. cbn [snd].
  split; [reflexivity|]. constructor; [|constructor]. now split.
Qed.

(** One product and its accumulation, as [call] writes it three times:
    read [K] and the kernel, reparameterize, multiply, continue. *)
Lemma tidy_product {A} (k : Z) (T : tensor)
    (cont : tensor -> M World A) (w : World) :
  (forall d w', self w' = self w -> tidy (cont d) w') ->
  tidy (bind (attr K) (fun K_ =>
        bind (attr_opt kernel) (fun kernel_ =>
        bind (reparam rp K_ kernel_ k) (fun wk =>
        bind (lift (KB_dot T wk)) cont)))) w.
Proof.
  intros Hc. apply tidy_bind; [now apply tidy_pure|].
  intros K_ w1 E1. rewrite attr_run in E1. injection E1 as <- <-.
  apply tidy_bind; [apply tidy_pure; now rewrite attr_opt_run|].
  intros W w2 E2. rewrite attr_opt_run in E2. injection E2 as HW <-.
  apply tidy_bind; [now apply tidy_reparam|].
  intros wk w3 E3. rewrite reparam_run in E3. injection E3 as _ <-.
  apply tidy_bind; [apply tidy_pure; now rewrite lift_run|].
  intros d w4 E4. rewrite lift_run in E4. injection E4 as _ <-.
  now apply Hc.
Qed.

Lemma tidy_lift_then {A B} (o : option A) (k : A -> M World B) (w : World) :
  (forall a, tidy (k a) w) -> tidy (bind (lift o) k) w.
Proof.
  intros Hk. apply tidy_bind; [apply tidy_pure; now rewrite lift_run|].
  intros a w' E. rewrite lift_run in E. injection E as _ <-. apply Hk.
Qed.

Lemma tidy_loop_body (a : tensor) (k : Z) (l : locals) (w : World) :
  tidy (loop_body rp a k l) w.
Proof.
  destruct l as [[T_0 T_1] output]. unfold loop_body.
  apply tidy_lift_then. intros T_1v.
  apply tidy_lift_then. intros m.
  apply tidy_lift_then. intros T_2.
  apply tidy_product. intros d w' Hs.
  apply tidy_lift_then. intros o. now apply tidy_pure.
Qed.

Lemma tidy_for_each (a : tensor) (ks : list Z) :
  forall (l : locals) (w : World), tidy (for_each ks (loop_body rp a) l) w.
Proof.
  induction ks as [|k ks IH]; intros l w; cbn [for_each].
  - now apply tidy_pure.
  - apply tidy_bind; [apply tidy_loop_body|]. intros l' w' _. apply IH.
Qed.

Lemma tidy_call_expansion (inputs : tensor * tensor) (w : World) :
  tidy (call_expansion rp inputs) w.
Proof.
  destruct inputs as [x a]. unfold call_expansion.
  apply tidy_product. intros output w1 _.
  apply tidy_bind; [now apply tidy_pure|].
  intros K_ w2 E2. rewrite attr_run in E2. injection E2 as _ <-.
  apply tidy_bind.
  - destruct (1 <? K_).
    + apply tidy_lift_then. intros T_1.
      apply tidy_product. intros d w3 _.
      apply tidy_lift_then. intros o. now apply tidy_pure.
    + now apply tidy_pure.
  - intros [T_1 o] w3 _.
    apply tidy_bind; [now apply tidy_pure|].
    intros K2 w4 E4. rewrite attr_run in E4. injection E4 as _ <-.
    apply tidy_bind; [apply tidy_for_each|].
    intros [[? ?] ?] w5 _. now apply tidy_pure.
Qed.
End Tidy.

(** X9.  Whether it returns or raises, [call] leaves the world as it was
    except for the trace, and to the trace it only adds calls of the
    reparameterization, each with the order [K] and the whole kernel of the
    layer: it never asks the framework for a weight and never prints. *)
Theorem X9_call_only_calls_reparameterization
    (rp : Z -> tensor -> Z -> option tensor) (inputs : tensor * tensor)
    (mask : option (list (option tensor))) (w : World) :
  exists es,
    snd (call rp inputs mask w) = mkWorld (self w) (trace w ++ es)
    /\ forall e, In e es ->
         exists W k, kernel (self w) = Some W
                     /\ e = EvReparam (K (self w)) W k.
Proof.
  destruct (tidy_call_expansion rp inputs w) as (es & E & F).
  exists es. split.
  - rewrite call_run.
    destruct (call_expansion rp inputs w) as [[y|] w']; exact E.
  - intros e He. rewrite Forall_forall in F. specialize (F e He).
    destruct e as [| | |Kz W k]; try contradiction.
    destruct F as [<- HW]. now exists W, k.
Qed.

(** X10.  The value [call] returns, or its raising, depends on the layer
    through its order, kernel, bias switch, bias and activation only: it
    reads neither [channels], nor [built], nor the initializers,
    regularizers and constraints, nor anything of the trace. *)
Theorem X10_call_reads_five_attributes
    (rp : Z -> tensor -> Z -> option tensor) (inputs : tensor * tensor)
    (mask : option (list (option tensor))) (w1 w2 : World) :
  K (self w1) = K (self w2) ->
  kernel (self w1) = kernel (self w2) ->
  use_bias (conv (self w1)) = use_bias (conv (self w2)) ->
  bias (self w1) = bias (self w2) ->
  activation (conv (self w1)) = activation (conv (self w2)) ->
  fst (call rp inputs mask w1) = fst (call rp inputs mask w2).
Proof.
  intros HK Hk Hu Hb Ha. destruct inputs as [x a]. rewrite !call_run.
  pose proof (call_expansion_value rp x a w1) as V1.
  pose proof (call_expansion_value rp x a w2) as V2.
  pose proof (reads_only_call_expansion rp (x, a) w1) as F1.
  pose proof (reads_only_call_expansion rp (x, a) w2) as F2.
  rewrite HK, Hk, <- V2 in V1.
  destruct (call_expansion rp (x, a) w1) as [[y1|] v1];
    destruct (call_expansion rp (x, a) w2) as [[y2|] v2];
    cbn [fst snd] in *; try discriminate V1; [|reflexivity].
  injection V1 as ->. rewrite F1, F2. unfold finish, bias_step.
  now rewrite Hu, Hb, Ha.
Qed.

Lemma X10_call_reads_five_attributes_witness :
  let w1 := Sample.built_world (Sample.sample_layer 3 None true) in
  let w2 :=
    mkWorld
      (mkLayer
         (Conv_init None true "ones" "ones" (Some "l2"%string) None None
            None None)
         77 3 (kernel (self w1)) (bias (self w1)) false)
      [EvPrint "earlier"] in
  fst (call Sample.sample_reparam (Sample.features, Sample.path3) None w1)
  = fst (call Sample.sample_reparam (Sample.features, Sample.path3) None w2).
Proof.
  cbv zeta.
  apply (X10_call_reads_five_attributes Sample.sample_reparam
           (Sample.features, Sample.path3) None
           (Sample.built_world (Sample.sample_layer 3 None true)));
    reflexivity.
Defined.

(** ** Shapes without a batch dimension *)

Section ModeShapes.
Variable rp : Z -> tensor -> Z -> option tensor.
Hypothesis rp_ok : reparam_contract rp.

Variables (a x W : tensor) (Kz : Z) (sx so : list nat) (F C : nat).
Hypothesis Hx : shape x = sx.
Hypothesis Hmod :
  forall t, shape t = sx -> exists m, modal_dot a t = Some m /\ shape m = sx.
Hypothesis Hdot :
  forall t w, shape t = sx -> shape w = [F; C] ->
              exists y, KB_dot t w = Some y /\ shape y = so.
Hypothesis HW : shape W = [Z.to_nat Kz; F; C].

Lemma mode_T_shape (k : nat) :
  exists t, cheb_T a x k = Some t /\ shape t = sx.
Proof.
  assert (two : (exists t, cheb_T a x k = Some t /\ shape t = sx)
                /\ (exists t, cheb_T a x (S k) = Some t /\ shape t = sx)).
  { induction k as [|k IH].
    - split; [exists x; auto|]. cbn. now apply Hmod.
    - destruct IH as [(t0 & E0 & S0) (t1 & E1 & S1)].
      split; [exists t1; auto|].
      rewrite cheb_T_SS, E1, E0.
      destruct (Hmod t1 S1) as (m & Em & Sm). rewrite Em.
      destruct (bop_same_shape Z.sub (scale 2 m) t0) as (d & Ed & Sd).
      { cbn. now rewrite Sm, S0. }
      exists d. split; [exact Ed|]. rewrite Sd. exact Sm. }
  apply two.
Qed.

Lemma mode_sum_shape (n : nat) :
  Z.of_nat n < Kz ->
  exists y, cheb_sum rp Kz W a x n = Some y /\ shape y = so.
Proof.
  assert (summand : forall k, Z.of_nat k < Kz ->
            exists d, cheb_summand rp Kz W a x k = Some d /\ shape d = so).
  { intros k Hk. unfold cheb_summand.
    destruct (mode_T_shape k) as (t & Et & St). rewrite Et.
    destruct (rp_ok Kz W (Z.of_nat k) F C HW) as (wk & Ew & Sw); [lia|].
    rewrite Ew. now apply Hdot. }
  induction n as [|n IH]; intros Hn.
  - apply (summand O Hn).
  - cbn [cheb_sum]. destruct IH as (acc & Ea & Sa); [lia|].
    destruct (summand (S n) Hn) as (d & Ed & Sd). rewrite Ea, Ed.
    destruct (bop_same_shape Z.add acc d) as (y & Ey & Sy);
      [now rewrite Sa, Sd|].
    exists y. split; [exact Ey|]. now rewrite Sy.
Qed.
End ModeShapes.

(** [call] returns with the shape [so] when the expansion has it and the
    closing steps keep it. *)
Lemma call_shape_from_sum
    (rp : Z -> tensor -> Z -> option tensor) (x a W : tensor)
    (mask : option (list (option tensor))) (w : World) (so : list nat) :
  1 <= K (self w) ->
  kernel (self w) = Some W ->
  (exists y, cheb_sum rp (K (self w)) W a x (Z.to_nat (K (self w)) - 1)
             = Some y /\ shape y = so) ->
  (forall y, shape y = so ->
             exists z, finish (self w) mask y = Some z /\ shape z = so) ->
  exists y w', call rp (x, a) mask w = (Some y, w') /\ shape y = so.
Proof.
  intros HK EW (y0 & E0 & S0) Hf.
  assert (Hw : has_weights (K (self w)) W w) by (split; [reflexivity|exact EW]).
  destruct (call_expansion_run rp (K (self w)) W x a w Hw HK) as [E _].
  rewrite E0 in E. rewrite call_run.
  pose proof (reads_only_call_expansion rp (x, a) w) as Fr.
  destruct (call_expansion rp (x, a) w) as [[y|] w']; cbn [fst snd] in *;
    [|discriminate E].
  injection E as ->. rewrite Fr.
  destruct (Hf y0 S0) as (z & Ez & Sz). exists z, w'. now rewrite Ez.
Qed.

(** X11.  Single mode: for a layer of order [K >= 1] built for [F_in]
    features, node features of shape [(N, F_in)] without a batch dimension
    and an operator of shape [(N, N)], [call] returns and its output has the
    shape [(N, channels)]. *)
Theorem X11_single_mode_output_shape
    (rp : Z -> tensor -> Z -> option tensor) (x a : tensor)
    (mask : option (list (option tensor))) (w : World) (N F : nat) :
  reparam_contract rp ->
  1 <= K (self w) ->
  built_for (self w) F ->
  match mask with
  | None => True
  | Some (Some m :: _) => shape m = [N; 1%nat]
  | Some _ => False
  end ->
  shape x = [N; F] ->
  shape a = [N; N] ->
  exists y w',
    call rp (x, a) mask w = (Some y, w')
    /\ shape y = [N; Z.to_nat (channels (self w))].
Proof.
  intros Hrp HK Hb Hm Hx Ha. pose proof Hb as [(W & EW & SW) Hbias].
  apply (call_shape_from_sum rp x a W mask w _ HK EW).
  - apply (mode_sum_shape rp Hrp a x W (K (self w)) [N; F]
             [N; Z.to_nat (channels (self w))] F
             (Z.to_nat (channels (self w))) Hx); [| |exact SW|lia].
    + intros t St. unfold modal_dot. rewrite Ha, St, Nat.eqb_refl.
      eexists. split; reflexivity.
    + intros t wk St Sw. unfold KB_dot, rank. rewrite St, Sw. cbn.
      rewrite Nat.eqb_refl. eexists. split; reflexivity.
  - intros y Sy. unfold finish.
    assert (E : exists yb, bias_step (self w) y = Some yb
                           /\ shape yb = [N; Z.to_nat (channels (self w))]).
    { unfold bias_step. destruct (use_bias (conv (self w)));
        [|exists y; auto].
      destruct (Hbias eq_refl) as (b & Eb & Sb). rewrite Eb.
      unfold KB_bias_add, rank. rewrite Sb, Sy. cbn. rewrite Nat.eqb_refl.
      eexists. split; reflexivity. }
    destruct E as (yb & -> & Syb).
    destruct mask as [[|[m|] rest]|]; cbn in Hm |- *; try contradiction.
    + unfold mul, bop, bshape. rewrite Syb, Hm. cbn. rewrite Nat.eqb_refl.
      destruct (Z.to_nat (channels (self w)) =? 1)%nat;
        eexists; split; reflexivity.
    + eexists. split; [reflexivity|exact Syb].
Qed.

Lemma X11_single_mode_output_shape_witness :
  let w := Sample.built_world (Sample.sample_layer 3 None true) in
  let x := mkTensor [3; 2]%nat (fun idx => Z.of_nat (nth 0 idx O)) in
  let a := mkTensor [3; 3]%nat (fun _ => 1) in
  exists y w',
    call Sample.sample_reparam (x, a) None w = (Some y, w')
    /\ shape y = [3; 2]%nat.
Proof.
  cbv zeta.
  apply (X11_single_mode_output_shape Sample.sample_reparam
           (mkTensor [3; 2]%nat (fun idx => Z.of_nat (nth 0 idx O)))
           (mkTensor [3; 3]%nat (fun _ => 1)) None
           (Sample.built_world (Sample.sample_layer 3 None true)) 3 2
           sample_reparam_contract).
  - vm_compute; discriminate.
  - split; [|intros _]; eexists; split; reflexivity.
  - exact I.
  - reflexivity.
  - reflexivity.
Defined.

(** X12.  Mixed mode: for a layer of order [K >= 1] built for [F_in]
    features, a batch of node features of shape [(B, N, F_in)] and one
    operator of shape [(N, N)] shared by the batch, [call] returns and its
    output has the shape [(B, N, channels)]. *)
Theorem X12_mixed_mode_output_shape
    (rp : Z -> tensor -> Z -> option tensor) (x a : tensor)
    (mask : option (list (option tensor))) (w : World) (B N F : nat) :
  reparam_contract rp ->
  1 <= K (self w) ->
  built_for (self w) F ->
  mask_for mask B N ->
  shape x = [B; N; F] ->
  shape a = [N; N] ->
  exists y w',
    call rp (x, a) mask w = (Some y, w')
    /\ shape y = [B; N; Z.to_nat (channels (self w))].
Proof.
  intros Hrp HK Hb Hm Hx Ha. pose proof Hb as [(W & EW & SW) _].
  apply (call_shape_from_sum rp x a W mask w _ HK EW).
  - apply (mode_sum_shape rp Hrp a x W (K (self w)) [B; N; F]
             [B; N; Z.to_nat (channels (self w))] F
             (Z.to_nat (channels (self w))) Hx); [| |exact SW|lia].
    + intros t St. unfold modal_dot. rewrite Ha, St, Nat.eqb_refl.
      eexists. split; reflexivity.
    + intros t wk St Sw. now apply (KB_dot_shape t wk B N F).
  - intros y Sy. now apply (finish_shape (self w) mask y B N F).
Qed.

Lemma X12_mixed_mode_output_shape_witness :
  let w := Sample.built_world (Sample.sample_layer 3 None true) in
  let a := mkTensor [3; 3]%nat (fun _ => 1) in
  exists y w',
    call Sample.sample_reparam (Sample.features, a)
      (Some [Some Sample.mask_middle]) w = (Some y, w')
    /\ shape y = [1; 3; 2]%nat.
Proof.
  cbv zeta.
  apply (X12_mixed_mode_output_shape Sample.sample_reparam Sample.features
           (mkTensor [3; 3]%nat (fun _ => 1))
           (Some [Some Sample.mask_middle])
           (Sample.built_world (Sample.sample_layer 3 None true)) 1 3 2
           sample_reparam_contract).
  - vm_compute; discriminate.
  - split; [|intros _]; eexists; split; reflexivity.
  - reflexivity.
  - reflexivity.
  - reflexivity.
Defined.

(** ** An operator that does not fit, unnoticed *)

Lemma bshape_one_node (B N C : nat) :
  bshape [B; 1%nat; C] [B; N; C] = Some [B; N; C].
Proof.
  unfold bshape. cbn. rewrite !Nat.eqb_refl.
  destruct N as [|[|n]]; reflexivity.
Qed.

(** X14.  A mismatch between the operator and the number of nodes can go
    unnoticed: for a layer of order 2, node features of one node per graph,
    of shape [(B, 1, F_in)], and an operator of shape [(B, N', 1)], [call]
    raises nothing; the order-0 product is broadcast against the order-1
    product and the output has [N'] nodes, of shape [(B, N', channels)]. *)
Theorem X14_one_node_input_is_broadcast
    (rp : Z -> tensor -> Z -> option tensor) (x a : tensor) (w : World)
    (B N' F : nat) :
  reparam_contract rp ->
  K (self w) = 2 ->
  built_for (self w) F ->
  shape x = [B; 1%nat; F] ->
  shape a = [B; N'; 1%nat] ->
  exists y w',
    call rp (x, a) None w = (Some y, w')
    /\ shape y = [B; N'; Z.to_nat (channels (self w))].
Proof.
  intros Hrp HK Hb Hx Ha. pose proof Hb as [(W & EW & SW) _].
  apply (call_shape_from_sum rp x a W None w _ ltac:(lia) EW).
  - rewrite HK in *. change (Z.to_nat 2 - 1)%nat with 1%nat.
    cbn [cheb_sum]. unfold cheb_summand. cbn [cheb_T].
    change (Z.of_nat 0) with 0. change (Z.of_nat 1) with 1.
    destruct (Hrp 2 W 0 F _ SW) as (w0 & -> & S0); [lia|].
    destruct (Hrp 2 W 1 F _ SW) as (w1 & -> & S1); [lia|].
    destruct (KB_dot_shape x w0 B 1 F _ Hx S0) as (d0 & -> & Sd0).
    assert (Em : exists m, modal_dot a x = Some m /\ shape m = [B; N'; F]).
    { unfold modal_dot. rewrite Ha, Hx, !Nat.eqb_refl. cbn.
      eexists. split; reflexivity. }
    destruct Em as (m & -> & Sm).
    destruct (KB_dot_shape m w1 B N' F _ Sm S1) as (d1 & -> & Sd1).
    unfold add, bop. rewrite Sd0, Sd1, bshape_one_node.
    eexists. split; reflexivity.
  - intros y Sy. now apply (finish_shape (self w) None y B N' F).
Qed.

Lemma X14_one_node_input_is_broadcast_witness :
  let w :=
    snd (build Sample.sample_add_weight [[1; 1; 2]; [1; 5; 1]]%nat
           (mkWorld (Sample.sample_layer 2 None true) [])) in
  exists y w',
    call Sample.sample_reparam
      (full [1; 1; 2]%nat 3, full [1; 5; 1]%nat 1) None w = (Some y, w')
    /\ shape y = [1; 5; 2]%nat.
Proof.
  cbv zeta.
  apply (X14_one_node_input_is_broadcast Sample.sample_reparam
           (full [1; 1; 2]%nat 3) (full [1; 5; 1]%nat 1)
           (snd (build Sample.sample_add_weight [[1; 1; 2]; [1; 5; 1]]%nat
                   (mkWorld (Sample.sample_layer 2 None true) [])))
           1 5 2 sample_reparam_contract).
  - reflexivity.
  - split; [|intros _]; eexists; split; reflexivity.
  - reflexivity.
  - reflexivity.
Defined.

(** ** [config] *)

(** X15.  [config] returns the [channels] and the [K] the layer was
    constructed with and changes nothing; [build] and [call], whether they
    complete or raise, leave what [config] returns as it was. *)
Theorem X15_config_is_the_constructor_arguments
    (aw : list Z -> string -> string -> option string -> option string ->
          option tensor)
    (rp : Z -> tensor -> Z -> option tensor)
    (inputs : tensor * tensor) (mask : option (list (option tensor)))
    (input_shape : list (list nat)) (w : World) (tr : list event)
    (ch Kz : Z) (act : option (Z -> Z)) (ub : bool) (ki bi : string)
    (kr br ar kc bc : option string) :
  config (mkWorld (__init__ ch Kz act ub ki bi kr br ar kc bc) tr)
    = (Some [("channels"%string, ch); ("K"%string, Kz)],
       mkWorld (__init__ ch Kz act ub ki bi kr br ar kc bc) tr)
  /\ snd (config w) = w
  /\ fst (config (snd (build aw input_shape w))) = fst (config w)
  /\ fst (config (snd (call rp inputs mask w))) = fst (config w).
Proof.
  split; [reflexivity|]. split; [reflexivity|].
  assert (R : forall v, fst (config v)
                        = Some [("channels"%string, channels (self v));
                                ("K"%string, K (self v))])
    by reflexivity.
  rewrite !R. split.
  - destruct (build_spec aw input_shape w) as (_ & -> & -> & _). reflexivity.
  - now rewrite (reads_only_call rp inputs mask w).
Qed.
